(** * size-plugin-core: a shallow embedding and its properties

    The development follows the JavaScript sources of the package:
    - [util.js]               : [noop], [toMap], [dedupe], [toFileMap],
      [getStripHashedFileSize];
    - [size-plugin-core.js]   : [Core] and its closures [readFromDisk],
      [writeToDisk], [save], [load], [getSizes], [filterFiles], [outputSizes];
    - the gzip-only copy of the core, for its [getSizes];
    - the store client        : [publishDiff], [publishSizes].

    Numbers are byte counts and epoch milliseconds, hence integers ([Z]);
    strings are byte strings, so a length is a JavaScript length for ASCII
    names; a JavaScript object used as a dictionary is an association list
    of its own properties, kept in the order [Object.keys] enumerates it,
    and an object created by [{}] carries its link to [Object.prototype],
    whose members a read finds and whose [__proto__] an assignment
    triggers; asynchronous code is sequential code in a state-and-exception
    monad over the file system, the clock and a log of the calls that
    leave the process.

    The records of a report hold numbers.  The loop that builds them is
    followed for the names whose two reads give a number or nothing: the
    own keys of a map, and every name that is no member of
    [Object.prototype].  What the two reads give at any name is [measure]. *)

From Stdlib Require Import ZArith List String Ascii Bool Lia Permutation Sorted.
From Stdlib Require Import DecimalString.
From stdpp Require Import base gmap strings.
Import ListNotations.
Local Open Scope string_scope.
Local Open Scope list_scope.
Local Open Scope Z_scope.

(** ** JavaScript values that end up in a size map *)

Module JS.

(** A size is a number, [null] (a caught compression failure) or
    [undefined] (an index read past the end of an array). *)
Inductive value : Type :=
| Num (n : Z)
| Null
| Undefined.

(** [ToBoolean]: zero, [null] and [undefined] are falsy. *)
Definition truthy (v : value) : bool :=
  match v with
  | Num n => negb (n =? 0)
  | Null | Undefined => false
  end.

(** [o[k] || 0] where the property read [o[k]] gave [r] ([None] when the
    object has no such property, which reads as [undefined]). *)
Definition or_zero (r : option value) : Z :=
  match r with
  | Some (Num n) => if truthy (Num n) then n else 0
  | Some Null | Some Undefined | None => 0
  end.

(** *** Property keys: array indices come first *)

Definition digit (c : ascii) : option N :=
  let n := N_of_ascii c in
  if ((48 <=? n) && (n <=? 57))%N then Some (n - 48)%N else None.

Fixpoint digits (s : string) (acc : N) : option N :=
  match s with
  | EmptyString => Some acc
  | String c s' =>
      match digit c with
      | Some d => digits s' (10 * acc + d)%N
      | None => None
      end
  end.

(** A key is an array index when it is the canonical decimal form of an
    integer below 2^32 - 1. *)
Definition array_index (k : string) : option N :=
  match k with
  | EmptyString => None
  | String c rest =>
      if Ascii.eqb c "0" && negb (String.eqb rest "") then None
      else match digits k 0 with
           | Some n => if (n <? 4294967295)%N then Some n else None
           | None => None
           end
  end.

(** *** Objects as ordered key/value tables

    The list holds the own properties, in [Object.keys] order:
    array-index keys in ascending numeric order, then the other keys in
    the order they were created. *)
Definition object (V : Type) : Type := list (string * V).

Section Object.
Context {V : Type}.

(** [Object.keys(o)] *)
Definition keys (o : object V) : list string := map fst o.

(** The own property [k] of [o]: [o[k]] when [o] has the key [k], and
    [o[k]] for every [k] that the prototype of [o] has no member for. *)
Fixpoint get (o : object V) (k : string) : option V :=
  match o with
  | [] => None
  | (k', v) :: o' => if String.eqb k' k then Some v else get o' k
  end.

Definition has (o : object V) (k : string) : bool :=
  existsb (String.eqb k) (keys o).

(** Assignment to a property that exists keeps its place. *)
Fixpoint update (k : string) (v : V) (o : object V) : object V :=
  match o with
  | [] => []
  | (k', v') :: o' =>
      if String.eqb k' k then (k', v) :: o' else (k', v') :: update k v o'
  end.

(** A new array-index key goes before the first key that is a larger
    index or no index at all. *)
Fixpoint insert_index (n : N) (k : string) (v : V) (o : object V) : object V :=
  match o with
  | [] => [(k, v)]
  | (k', v') :: o' =>
      match array_index k' with
      | Some n' =>
          if (n' <? n)%N then (k', v') :: insert_index n k v o'
          else (k, v) :: o
      | None => (k, v) :: o
      end
  end.

(** [o[k] = v] where the assignment creates or updates an own property
    (see [put] for the assignment that reaches an inherited setter). *)
Definition set (k : string) (v : V) (o : object V) : object V :=
  if has o k then update k v o
  else match array_index k with
       | Some n => insert_index n k v o
       | None => o ++ [(k, v)]
       end.

(** Every object reachable from [{}] by assignments has distinct keys. *)
Definition wf (o : object V) : Prop := List.NoDup (keys o).

End Object.

(** *** Objects created by [{}]

    Such an object has [Object.prototype] as its prototype until [null]
    is assigned to its [__proto__].  While it has, a read of a name that
    is no own property finds the member of [Object.prototype] of that
    name, if there is one, and an assignment to [__proto__] runs the
    inherited setter, which stores no property: it replaces the prototype
    when the value is [null] (or an object; the maps here hold none), and
    does nothing for any other value. *)

(** The members of [Object.prototype]. *)
Definition prototype_members : list string :=
  ["constructor"; "__defineGetter__"; "__defineSetter__"; "hasOwnProperty";
   "__lookupGetter__"; "__lookupSetter__"; "isPrototypeOf"; "propertyIsEnumerable";
   "toString"; "valueOf"; "__proto__"; "toLocaleString"].

Definition inherited (k : string) : bool :=
  existsb (String.eqb k) prototype_members.

Record instance (V : Type) : Type := {
  own : object V;
  (** whether the prototype is still [Object.prototype] *)
  prototype : bool
}.
Arguments own {V} _.
Arguments prototype {V} _.

(** [{}] *)
Definition empty {V : Type} : instance V := {| own := []; prototype := true |}.

(** What a read [o[k]] finds: an own property, a member of
    [Object.prototype] (a function, or [Object.prototype] itself for
    [__proto__]), or nothing ([undefined]). *)
Inductive reading (V : Type) : Type :=
| Own (v : V)
| Member (name : string)
| Nothing.
Arguments Own {V} v.
Arguments Member {V} name.
Arguments Nothing {V}.

(** [o[k]] *)
Definition read {V : Type} (o : instance V) (k : string) : reading V :=
  match get (own o) k with
  | Some v => Own v
  | None => if prototype o && inherited k then Member k else Nothing
  end.

(** [o[k] = v], with [is_null] telling whether a value is [null]. *)
Definition put {V : Type} (is_null : V -> bool) (k : string) (v : V) (o : instance V)
    : instance V :=
  if String.eqb k "__proto__" && prototype o && negb (has (own o) k) then
    if is_null v then {| own := own o; prototype := false |} else o
  else {| own := set k v (own o); prototype := prototype o |}.

Definition is_null (v : value) : bool :=
  match v with
  | Null => true
  | Num _ | Undefined => false
  end.




(** *** Array helpers *)

(** [arr.indexOf(item)], -1 when [item] does not occur. *)
Fixpoint indexOf (arr : list string) (item : string) : Z :=
  match arr with
  | [] => -1
  | x :: rest =>
      if String.eqb x item then 0
      else let j := indexOf rest item in
           if j <? 0 then -1 else 1 + j
  end.

(** [arr.filter(f)]: the callback receives the element, its index and the
    whole array. *)
Fixpoint filter_from {A : Type} (f : A -> nat -> list A -> bool)
    (arr : list A) (i : nat) (rest : list A) : list A :=
  match rest with
  | [] => []
  | x :: rest' =>
      if f x i arr then x :: filter_from f arr (S i) rest'
      else filter_from f arr (S i) rest'
  end.

Definition filter {A : Type} (f : A -> nat -> list A -> bool) (arr : list A) : list A :=
  filter_from f arr 0%nat arr.

(** [arr.reduce(f, init)]: the callback receives the accumulator, the
    element and its index. *)
Fixpoint reduce_from {A B : Type} (f : B -> A -> nat -> B)
    (i : nat) (arr : list A) (acc : B) : B :=
  match arr with
  | [] => acc
  | x :: rest => reduce_from f (S i) rest (f acc x i)
  end.

Definition reduce {A B : Type} (f : B -> A -> nat -> B) (arr : list A) (init : B) : B :=
  reduce_from f 0%nat arr init.

(** [values[i]]: [undefined] past the end. *)
Definition at_index (values : list value) (i : nat) : value :=
  nth i values Undefined.

End JS.

(** ** util.js *)

Definition noop (a : string) : string := a.

(** The object [toMap] returns, and its own properties. *)
Definition toMap_object (names : list string) (values : list JS.value)
    : JS.instance JS.value :=
  JS.reduce (fun map name i => JS.put JS.is_null name (JS.at_index values i) map)
            names JS.empty.

Definition toMap (names : list string) (values : list JS.value) : JS.object JS.value :=
  JS.own (toMap_object names values).

Definition dedupe (item : string) (index : nat) (arr : list string) : bool :=
  JS.indexOf arr item =? Z.of_nat index.

Module FileStat.
(** One entry of a stored snapshot. *)
Record t : Type := mk {
  filename : string;
  previous : Z;
  size : Z;
  diff : Z
}.
End FileStat.

(** The object [toFileMap] returns, and its own properties. *)
Definition toFileMap_object (files : list FileStat.t) : JS.instance JS.value :=
  JS.reduce
    (fun result file (_ : nat) =>
       if JS.truthy (JS.Num (FileStat.size file))
       then (* excluding files with size 0 *)
         JS.put JS.is_null (FileStat.filename file) (JS.Num (FileStat.size file)) result
       else result)
    files JS.empty.

Definition toFileMap (files : list FileStat.t) : JS.object JS.value :=
  JS.own (toFileMap_object files).


(** ** Snapshots, display items and the world outside the process *)

Module Stats.
(** A snapshot: what [save] builds and what the history file stores. *)
Record t : Type := mk {
  timestamp : Z;
  files : list FileStat.t
}.
End Stats.

Module Item.
Record t : Type := mk {
  name : string;
  sizeBefore : Z;
  size : Z;
  sizeText : string;
  delta : Z;
  deltaText : string;
  msg : string;
  color : string
}.
End Item.

(** What [fs.readJSON] can parse out of the history file: an array of
    snapshots, or some other JSON value (which has no [sort] method). *)
Inductive json : Type :=
| JArray (history : list Stats.t)
| JOther.

(** The content of a file that exists. *)
Inductive file : Type :=
| Unparsable
| Json (j : json).

(** The ambient process and CI environment read by the store client. *)
Record ambient : Type := {
  NODE_ENV : option string;
  SIZE_STORE_ENDPOINT : option string;
  ci : option string;
  repo : string;
  sha : string;
  event : string;
  branch : string
}.

Inductive body : Type :=
| Diff (diff : Stats.t)
| Size (size : list Stats.t).

(** Calls that leave the core, in the order they happen. *)
Inductive call : Type :=
| PublishDiff (diff : Stats.t) (filename : string)
| PublishSizes (size : list Stats.t) (filename : string)
| SaveHook (stats : Stats.t)
| Post (url : string) (ctx : ambient) (filename : string) (b : body)
| ConsoleError (message : string).

Record world : Type := {
  disk : gmap string file;
  now : Z;
  network : bool;
  log : list call
}.

Inductive error : Type :=
| ENOENT
| SyntaxError
| TypeError
| NetworkError
| CompressionError.

Inductive result (A : Type) : Type :=
| Ok (a : A)
| Throw (e : error).
Arguments Ok {A} a.
Arguments Throw {A} e.

(** Asynchronous functions: run from a world, they return or throw, and
    leave a world. *)
Definition M (A : Type) : Type := world -> result A * world.

Definition ret {A : Type} (a : A) : M A := fun w => (Ok a, w).

Definition throw {A : Type} (e : error) : M A := fun w => (Throw e, w).

Definition bind {A B : Type} (m : M A) (k : A -> M B) : M B :=
  fun w =>
    match m w with
    | (Ok a, w') => k a w'
    | (Throw e, w') => (Throw e, w')
    end.

Definition try_catch {A : Type} (m : M A) (handler : error -> M A) : M A :=
  fun w =>
    match m w with
    | (Ok a, w') => (Ok a, w')
    | (Throw e, w') => handler e w'
    end.

Notation "'let*' x ':=' m 'in' k" := (bind m (fun x => k))
  (at level 10, x binder, m at level 100, k at level 200).
Notation "m '>>' k" := (bind m (fun _ => k))
  (at level 90, right associativity).

(** [cond && (await m)] used as a statement. *)
Definition when (cond : bool) (m : M unit) : M unit :=
  if cond then m else ret tt.

Definition lift {A : Type} (r : result A) : M A := fun w => (r, w).

Definition record (c : call) : M unit :=
  fun w => (Ok tt, {| disk := disk w; now := now w; network := network w;
                      log := log w ++ [c] |}).

(** [Date.now()] *)
Definition Date_now : M Z := fun w => (Ok (now w), w).

(** The file system stores what it is asked to: writes do not fail. *)
Module fs.

(** [fs.readJSON(filename)] *)
Definition readJSON (filename : string) : M json :=
  fun w =>
    match disk w !! filename with
    | None => (Throw ENOENT, w)
    | Some Unparsable => (Throw SyntaxError, w)
    | Some (Json j) => (Ok j, w)
    end.

(** [fs.ensureFile(filename)]: an existing file is left alone, a missing
    one is created empty. *)
Definition ensureFile (filename : string) : M unit :=
  fun w =>
    match disk w !! filename with
    | Some _ => (Ok tt, w)
    | None => (Ok tt, {| disk := <[filename := Unparsable]> (disk w); now := now w;
                         network := network w; log := log w |})
    end.

(** [fs.writeJSON(filename, data)] *)
Definition writeJSON (filename : string) (data : list Stats.t) : M unit :=
  fun w => (Ok tt, {| disk := <[filename := Json (JArray data)]> (disk w); now := now w;
                      network := network w; log := log w |}).

End fs.

(** [arr.sort(compare)]: a stable sort; [compare a b <= 0] keeps [a]
    before [b]. *)
Fixpoint sort_insert {A : Type} (compare : A -> A -> Z) (x : A) (l : list A) : list A :=
  match l with
  | [] => [x]
  | y :: l' => if compare x y <=? 0 then x :: l else y :: sort_insert compare x l'
  end.

Definition sort {A : Type} (compare : A -> A -> Z) (arr : list A) : list A :=
  fold_right (sort_insert compare) [] arr.

(** [Promise.all]: the results in order, or the first rejection. *)
Fixpoint Promise_all {A : Type} (promises : list (result A)) : result (list A) :=
  match promises with
  | [] => Ok []
  | Ok a :: rest =>
      match Promise_all rest with
      | Ok l => Ok (a :: l)
      | Throw e => Throw e
      end
  | Throw e :: _ => Throw e
  end.

(** [s || d] on strings: the empty string is falsy. *)
Definition string_or (s : option string) (d : string) : string :=
  match s with
  | Some x => if String.eqb x "" then d else x
  | None => d
  end.

Definition string_truthy (s : option string) : bool :=
  match s with
  | Some x => negb (String.eqb x "")
  | None => false
  end.

(** ** The store client *)

Section Store.
Variable env : ambient.

Definition endpoint : string :=
  string_or (SIZE_STORE_ENDPOINT env) "https://size-store.now.sh".

(** [axios.post(url, params)] *)
Definition axios_post (url : string) (filename : string) (b : body) : M unit :=
  record (Post url env filename b) >>
  fun w => if network w then (Ok tt, w) else (Throw NetworkError, w).

Definition not_test : bool :=
  match NODE_ENV env with
  | Some v => negb (String.eqb v "test")
  | None => true
  end.

Definition publishDiff (diff : Stats.t) (filename : string) : M unit :=
  record (PublishDiff diff filename) >>
  if not_test && string_truthy (ci env) && String.eqb (event env) "pull_request" then
    try_catch
      (axios_post (endpoint ++ "/diff")%string filename (Diff diff))
      (fun _ => record (ConsoleError "error: while publishing diff"))
  else ret tt.

Definition publishSizes (size : list Stats.t) (filename : string) : M unit :=
  record (PublishSizes size filename) >>
  if not_test && string_truthy (ci env) && String.eqb (event env) "push"
     && String.eqb (branch env) "master" then
    try_catch
      (axios_post (endpoint ++ "/size")%string filename (Size size))
      (fun _ => record (ConsoleError "error: while publishing sizes"))
  else ret tt.

End Store.

(** ** size-plugin-core.js *)

(** The libraries the core calls: each is given by what it answers. *)
Record library : Type := {
  (** [glob(pattern, { cwd, ignore })] *)
  glob : string -> string -> option string -> list string;
  (** [minimatch.filter(pattern)(file)] *)
  minimatch_filter : string -> string -> bool;
  (** [gzipSize(source)], [gzipSize.file(path)] *)
  gzipSize : string -> result Z;
  gzipSize_file : string -> result Z;
  (** [brotliSize(source)], [brotliSize.file(path)] *)
  brotliSize : string -> result Z;
  brotliSize_file : string -> result Z;
  (** [chalk[style](text)] *)
  chalk : string -> string -> string;
  prettyBytes : Z -> string;
  path_join : string -> string -> string;
  process_cwd : string
}.

Inductive method : Type := gzip | brotli.

(** The argument of [opt.decorateAfter]. *)
Module Data.
Record t : Type := mk {
  sizes : list Item.t;
  raw_sizesBefore : JS.object JS.value;
  raw_sizes : JS.object JS.value;
  output : string
}.
End Data.

(** The options as the caller passes them: every field may be missing.
    The hooks are the caller's code: [decorateItem] and [decorateAfter] are
    functions of their arguments, a call to [save] is recorded, and each is
    taken to return and to leave the objects it is given as they are. *)
Module Raw.
Record options : Type := {
  compression : option method;
  pattern : option string;
  exclude : option string;
  filename : option string;
  publish : bool;
  writeFile : option bool;
  mode : option string;
  stripHash : option (string -> string);
  save : bool;
  decorateItem : option (string -> Item.t -> option string);
  decorateAfter : option (Data.t -> option string)
}.
End Raw.

(** The options once [Core] has filled in the defaults. *)
Module Opt.
Record t : Type := mk {
  compression : method;
  pattern : string;
  exclude : option string;
  filename : string;
  filepath : string;
  publish : bool;
  writeFile : bool;
  mode : option string;
  stripHash : string -> string;
  save : bool;
  decorateItem : option (string -> Item.t -> option string);
  decorateAfter : option (Data.t -> option string)
}.
End Opt.

Definition newline : string := String (ascii_of_nat 10) "".

(** [text.replace(/^\n/g, "")] *)
Definition strip_newline (text : string) : string :=
  match text with
  | String c rest => if Ascii.eqb c (ascii_of_nat 10) then rest else text
  | EmptyString => text
  end.

(** [new Array(n + 1).join(" ")] *)
Fixpoint spaces (n : nat) : string :=
  match n with
  | O => ""
  | S n' => String " " (spaces n')
  end.

Section Core.
Variable lib : library.
Variable env : ambient.

(** [Core(options)]: the defaults. *)
Definition Core (o : Raw.options) : Opt.t := {|
  Opt.compression := match Raw.compression o with Some c => c | None => gzip end;
  Opt.pattern := string_or (Raw.pattern o) "**/*.{mjs,js,jsx,css,html}";
  Opt.exclude := Raw.exclude o;
  Opt.filename := string_or (Raw.filename o) "size-plugin.json";
  Opt.filepath := path_join lib (process_cwd lib) (string_or (Raw.filename o) "size-plugin.json");
  Opt.publish := Raw.publish o;
  Opt.writeFile := match Raw.writeFile o with Some false => false | _ => true end;
  Opt.mode := if string_truthy (Raw.mode o) then Raw.mode o else NODE_ENV env;
  Opt.stripHash := match Raw.stripHash o with Some f => f | None => noop end;
  Opt.save := Raw.save o;
  Opt.decorateItem := Raw.decorateItem o;
  Opt.decorateAfter := Raw.decorateAfter o
|}.

Variable opt : Opt.t.

(** [compression[opt.compression]] and its [.file] *)
Definition compressionSize (source : string) : result Z :=
  match Opt.compression opt with
  | gzip => gzipSize lib source
  | brotli => brotliSize lib source
  end.

Definition compressionSize_file (path : string) : result Z :=
  match Opt.compression opt with
  | gzip => gzipSize_file lib path
  | brotli => brotliSize_file lib path
  end.

Definition is_production : bool :=
  match Opt.mode opt with
  | Some m => String.eqb m "production"
  | None => false
  end.

Definition readFromDisk (filename : string) : M (list Stats.t) :=
  try_catch
    (let* oldStats := fs.readJSON filename in
     match oldStats with
     | JArray history =>
         ret (sort (fun a b => Stats.timestamp b - Stats.timestamp a) history)
     | JOther => throw TypeError
     end)
    (fun _ => ret []).

Definition writeToDisk (filename : string) (stats : Stats.t) : M unit :=
  if is_production
     && existsb (fun file => negb (FileStat.diff file =? 0)) (Stats.files stats)
  then
    let* data := readFromDisk filename in
    let data := stats :: data in
    when (Opt.writeFile opt) (fs.ensureFile filename >> fs.writeJSON filename data) >>
    when (Opt.publish opt) (publishSizes env data (Opt.filename opt))
  else ret tt.

Definition to_stat (file : Item.t) : FileStat.t := {|
  FileStat.filename := Item.name file;
  FileStat.previous := Item.sizeBefore file;
  FileStat.size := Item.size file;
  FileStat.diff := Item.size file - Item.sizeBefore file
|}.

Definition save (files : list Item.t) : M unit :=
  let* timestamp := Date_now in
  let stats := {| Stats.timestamp := timestamp; Stats.files := map to_stat files |} in
  when (Opt.publish opt) (publishDiff env stats (Opt.filename opt)) >>
  when (Opt.save opt) (record (SaveHook stats)) >>
  writeToDisk (Opt.filepath opt) stats.

Definition filterFiles (files : list string) : list string :=
  let isMatched := minimatch_filter lib (Opt.pattern opt) in
  let isExcluded :=
    match Opt.exclude opt with
    | Some e => if String.eqb e "" then fun _ => false else minimatch_filter lib e
    | None => fun _ => false
    end in
  List.filter (fun file => isMatched file && negb (isExcluded file)) files.

(** [promise.catch(() => null)] *)
Definition catch_null (r : result Z) : JS.value :=
  match r with
  | Ok n => JS.Num n
  | Throw _ => JS.Null
  end.

Definition getSizes (cwd : string) : M (JS.object JS.value) :=
  let files := glob lib (Opt.pattern opt) cwd (Opt.exclude opt) in
  let sizes :=
    map (fun file => catch_null (compressionSize_file (path_join lib cwd file)))
        (filterFiles files) in
  ret (toMap (map (fun filename => Opt.stripHash opt filename) files) sizes).

Definition load (outputPath : string) : M (JS.object JS.value) :=
  let* data := readFromDisk (Opt.filepath opt) in
  match data with
  | {| Stats.files := files |} :: _ => ret (toFileMap files)
  | [] => getSizes outputPath
  end.

(** The body of the loop over the unique file names, up to the item. *)
Definition color_of (size : Z) : string :=
  if size >? 100 * 1024 then "red"
  else if size >? 40 * 1024 then "yellow"
  else if size >? 20 * 1024 then "cyan"
  else "green".

Definition texts (size delta : Z) (color : string) : string * string :=
  let sizeText := chalk lib color (prettyBytes lib size) in
  let deltaText := "" in
  if negb (delta =? 0) && (Z.abs delta >? 1) then
    let deltaText := ((if delta >? 0 then "+" else "") ++ prettyBytes lib delta)%string in
    let '(sizeText, deltaText) :=
      if delta >? 1024 then (chalk lib "bold" sizeText, chalk lib "red" deltaText)
      else if delta <? -10 then (sizeText, chalk lib "green" deltaText)
      else (sizeText, deltaText) in
    ((sizeText ++ " (" ++ deltaText ++ ")")%string, deltaText)
  else (sizeText, deltaText).


(** The item of a name whose two reads give a number or nothing: the
    fields of an item are numbers. *)
Definition item_of (width : nat) (sizesBefore finalSizes : JS.object JS.value)
    (name : string) : Item.t :=
  let size := JS.or_zero (JS.get finalSizes name) in
  let sizeBefore := JS.or_zero (JS.get sizesBefore name) in
  let delta := size - sizeBefore in
  let msg := (spaces (width - String.length name + 1) ++ name ++ " ⏤  ")%string in
  let color := color_of size in
  let '(sizeText, deltaText) := texts size delta color in
  {| Item.name := name; Item.sizeBefore := sizeBefore; Item.size := size;
     Item.sizeText := sizeText; Item.delta := delta; Item.deltaText := deltaText;
     Item.msg := msg; Item.color := color |}.

Definition line_of (item : Item.t) : string :=
  let text := (Item.msg item ++ Item.sizeText item ++ newline)%string in
  match Opt.decorateItem opt with
  | Some decorate => string_or (decorate text item) text
  | None => text
  end.

(** The unique file names: [[...keys(sizesBefore), ...keys(finalSizes)].filter(dedupe)] *)
Definition unique_files (sizesBefore finalSizes : JS.object JS.value) : list string :=
  JS.filter dedupe (JS.keys sizesBefore ++ JS.keys finalSizes).

(** [Math.max(...files.map(file => file.length))] *)
Definition width_of (files : list string) : nat :=
  fold_right Nat.max 0%nat (map String.length files).

(** The loop: [items.push(item); output += text]. *)
Definition loop (sizesBefore finalSizes : JS.object JS.value) (files : list string)
    : list Item.t * string :=
  let width := width_of files in
  fold_left
    (fun '(items, output) name =>
       let item := item_of width sizesBefore finalSizes name in
       (items ++ [item], (output ++ line_of item)%string))
    files ([], "").

Definition compress_asset (assets : JS.object string) (name : string) : result Z :=
  match JS.get assets name with
  | Some source => compressionSize source
  | None => Throw TypeError
  end.

Definition outputSizes (assets : JS.object string) (outputPath : string) : M string :=
  let* sizesBefore := load outputPath in
  let assetNames := filterFiles (JS.keys assets) in
  let* sizes := lift (Promise_all (map (compress_asset assets) assetNames)) in
  let finalSizes :=
    toMap (map (fun filename => Opt.stripHash opt filename) assetNames) (map JS.Num sizes) in
  let files := unique_files sizesBefore finalSizes in
  let '(items, output) := loop sizesBefore finalSizes files in
  let output :=
    match Opt.decorateAfter opt with
    | Some decorate =>
        match decorate {| Data.sizes := items; Data.raw_sizesBefore := sizesBefore;
                          Data.raw_sizes := finalSizes; Data.output := output |} with
        | Some text =>
            if String.eqb text "" then output
            else (output ++ newline ++ strip_newline text)%string
        | None => output
        end
    | None => output
    end in
  save items >>
  ret output.

End Core.

(** ** The gzip-only copy of the core

    It differs from the core above in having no [compression] option and
    no [filterFiles]; its [getSizes] computes the sizes over the very list
    of files it takes the names from. *)

Module GzipCore.
Section Core.
Variable lib : library.
Variable opt : Opt.t.

Definition getSizes (cwd : string) : M (JS.object JS.value) :=
  let files := glob lib (Opt.pattern opt) cwd (Opt.exclude opt) in
  let sizes :=
    map (fun file => catch_null (gzipSize_file lib (path_join lib cwd file))) files in
  ret (toMap (map (fun filename => Opt.stripHash opt filename) files) sizes).

End Core.
End GzipCore.

(** ** Auxiliary views used in the proofs *)

(** A run of assignments [m[k] = v], first to last. *)
Definition assign {V : Type} (ps : list (string * V)) (acc : JS.object V) : JS.object V :=
  fold_left (fun m p => JS.set (fst p) (snd p) m) ps acc.

(** The assignments [toMap] makes: the [j]-th name with [values[i + j]]. *)
Fixpoint entries_from (i : nat) (names : list string) (values : list JS.value)
    : list (string * JS.value) :=
  match names with
  | [] => []
  | name :: rest => (name, JS.at_index values i) :: entries_from (S i) rest values
  end.

(** The assignments that reach the table of own properties: while the
    object has its prototype, an assignment to [__proto__] stores nothing,
    and one of [null] takes the prototype away. *)
Fixpoint settled (prototype : bool) (ps : list (string * JS.value))
    : list (string * JS.value) :=
  match ps with
  | [] => []
  | p :: rest =>
      if String.eqb (fst p) "__proto__" && prototype
      then settled (negb (JS.is_null (snd p))) rest
      else p :: settled prototype rest
  end.

(** The assignments [toFileMap] makes. *)
Definition stored_entries (files : list FileStat.t) : list (string * JS.value) :=
  map (fun file => (FileStat.filename file, JS.Num (FileStat.size file)))
      (List.filter (fun file => negb (FileStat.size file =? 0)) files).

(** First occurrences: an element is kept unless it was [seen] before. *)
Fixpoint first_seen (seen : list string) (l : list string) : list string :=
  match l with
  | [] => []
  | x :: rest =>
      if existsb (String.eqb x) seen then first_seen (seen ++ [x]) rest
      else x :: first_seen (seen ++ [x]) rest
  end.

(** The records of one reconciliation: the items the loop of [outputSizes]
    pushes for the baseline map [before] and the current map [after]. *)
Definition reconcile (lib : library) (opt : Opt.t) (before after : JS.object JS.value)
    : list Item.t :=
  fst (loop lib opt before after (unique_files before after)).

(** The world after a run that left the disk as [d] and made [calls]. *)
Definition after (w : world) (d : gmap string file) (calls : list call) : world :=
  {| disk := d; now := now w; network := network w; log := log w ++ calls |}.

(** The history [readFromDisk] finds in a disk. *)
Definition stored_history (d : gmap string file) (filename : string) : list Stats.t :=
  match d !! filename with
  | Some (Json (JArray history)) =>
      sort (fun a b => Stats.timestamp b - Stats.timestamp a) history
  | _ => []
  end.

(** The calls [publishDiff] and [publishSizes] make. *)
Definition diff_calls (env : ambient) (up : bool) (diff : Stats.t) (filename : string)
    : list call :=
  PublishDiff diff filename ::
  (if not_test env && string_truthy (ci env) && String.eqb (event env) "pull_request"
   then Post (endpoint env ++ "/diff")%string env filename (Diff diff) ::
        (if up then [] else [ConsoleError "error: while publishing diff"])
   else []).

Definition size_calls (env : ambient) (up : bool) (size : list Stats.t) (filename : string)
    : list call :=
  PublishSizes size filename ::
  (if not_test env && string_truthy (ci env) && String.eqb (event env) "push"
      && String.eqb (branch env) "master"
   then Post (endpoint env ++ "/size")%string env filename (Size size) ::
        (if up then [] else [ConsoleError "error: while publishing sizes"])
   else []).

(** The snapshot [save] builds from the items, in world [w]. *)
Definition snapshot_of (w : world) (items : list Item.t) : Stats.t :=
  {| Stats.timestamp := now w; Stats.files := map to_stat items |}.

(** The calls [save] makes for the snapshot [stats], with [data] the
    history it would write. *)
Definition save_calls (env : ambient) (up : bool) (opt : Opt.t) (gate : bool)
    (stats : Stats.t) (data : list Stats.t) : list call :=
  (if Opt.publish opt then diff_calls env up stats (Opt.filename opt) else [])
  ++ (if Opt.save opt then [SaveHook stats] else [])
  ++ (if gate && Opt.publish opt then size_calls env up data (Opt.filename opt) else []).

(** The condition under which [writeToDisk] does anything. *)
Definition persists (opt : Opt.t) (stats : Stats.t) : bool :=
  is_production opt
  && existsb (fun file => negb (FileStat.diff file =? 0)) (Stats.files stats).

(** The map [load] returns from a disk. *)
Definition baseline (lib : library) (opt : Opt.t) (outputPath : string)
    (d : gmap string file) : JS.object JS.value :=
  match stored_history d (Opt.filepath opt) with
  | latest :: _ => toFileMap (Stats.files latest)
  | [] =>
      let files := glob lib (Opt.pattern opt) outputPath (Opt.exclude opt) in
      toMap (map (Opt.stripHash opt) files)
            (map (fun file =>
                    catch_null (compressionSize_file lib opt (path_join lib outputPath file)))
                 (filterFiles lib opt files))
  end.

(** The records of one invocation of [outputSizes], when the scan of the
    assets does not reject. *)
Definition records (lib : library) (opt : Opt.t) (assets : JS.object string)
    (outputPath : string) (w : world) : result (list Item.t) :=
  let assetNames := filterFiles lib opt (JS.keys assets) in
  match Promise_all (map (compress_asset lib opt assets) assetNames) with
  | Ok sizes =>
      Ok (reconcile lib opt (baseline lib opt outputPath (disk w))
            (toMap (map (Opt.stripHash opt) assetNames) (map JS.Num sizes)))
  | Throw e => Throw e
  end.

(** The comparison [readFromDisk] sorts with, and the order it yields. *)
Definition by_timestamp (a b : Stats.t) : Z := Stats.timestamp b - Stats.timestamp a.

Definition newer_first (a b : Stats.t) : Prop := Stats.timestamp b <= Stats.timestamp a.

(** ** Concrete libraries, options and worlds for the examples *)

Module Demo.

(** Sizes are source lengths; a style is shown as a tag around the text. *)
Definition lib : library := {|
  glob := fun _ _ _ => [];
  minimatch_filter := fun _ _ => true;
  gzipSize := fun source => Ok (Z.of_nat (String.length source));
  gzipSize_file := fun _ => Throw CompressionError;
  brotliSize := fun source => Ok (Z.of_nat (String.length source));
  brotliSize_file := fun _ => Throw CompressionError;
  chalk := fun style text => ("<" ++ style ++ ">" ++ text ++ "</>")%string;
  prettyBytes := fun n => (NilZero.string_of_int (Z.to_int n) ++ " B")%string;
  path_join := fun a b => (a ++ "/" ++ b)%string;
  process_cwd := "/app"
|}.

Definition env : ambient := {|
  NODE_ENV := Some "development";
  SIZE_STORE_ENDPOINT := None;
  ci := Some "travis";
  repo := "size-plugin-core";
  sha := "0a1b2c";
  event := "pull_request";
  branch := "feature"
|}.

Definition raw (mode : string) : Raw.options := {|
  Raw.compression := None;
  Raw.pattern := None;
  Raw.exclude := None;
  Raw.filename := None;
  Raw.publish := true;
  Raw.writeFile := None;
  Raw.mode := Some mode;
  Raw.stripHash := None;
  Raw.save := true;
  Raw.decorateItem := None;
  Raw.decorateAfter := None
|}.

Definition production : Opt.t := Core lib env (raw "production").


Definition stored (a b : Z) : Stats.t := {|
  Stats.timestamp := 1000;
  Stats.files := [ {| FileStat.filename := "a.js"; FileStat.previous := 0;
                      FileStat.size := a; FileStat.diff := a |};
                   {| FileStat.filename := "b.js"; FileStat.previous := 0;
                      FileStat.size := b; FileStat.diff := b |} ]
|}.

Definition world_with (history : list Stats.t) : world := {|
  disk := {[ "/app/size-plugin.json" := Json (JArray history) ]};
  now := 2000;
  network := true;
  log := []
|}.

(** Two assets of 15 and 5 bytes. *)
Definition assets : JS.object string :=
  [("a.js", "fifteen bytes.."); ("c.js", "five.")].

(** A scan in which the filter drops one of the files [glob] found: for
    [glob] the pattern "!(*.map)" is an extglob, for [minimatch.filter] it
    is the negation of "(*.map)". *)
Definition scan_lib : library := {|
  glob := fun pattern _ _ =>
    if String.eqb pattern "!(*.map)" then ["(x.map)"; "main.js"] else [];
  minimatch_filter := fun pattern file =>
    if String.eqb pattern "!(*.map)" then negb (String.eqb file "(x.map)")
    else false;
  gzipSize := fun source => Ok (Z.of_nat (String.length source));
  gzipSize_file := fun path =>
    if String.eqb path "dist/(x.map)" then Ok 10
    else if String.eqb path "dist/main.js" then Ok 20
    else Throw CompressionError;
  brotliSize := fun source => Ok (Z.of_nat (String.length source));
  brotliSize_file := fun _ => Throw CompressionError;
  chalk := fun style text => ("<" ++ style ++ ">" ++ text ++ "</>")%string;
  prettyBytes := fun n => (NilZero.string_of_int (Z.to_int n) ++ " B")%string;
  path_join := fun a b => (a ++ "/" ++ b)%string;
  process_cwd := "/app"
|}.

Definition scan_opt : Opt.t :=
  Core scan_lib env {|
    Raw.compression := None;
    Raw.pattern := Some "!(*.map)";
    Raw.exclude := None;
    Raw.filename := None;
    Raw.publish := false;
    Raw.writeFile := None;
    Raw.mode := None;
    Raw.stripHash := None;
    Raw.save := false;
    Raw.decorateItem := None;
    Raw.decorateAfter := None
  |}.

(** Every chunk of the main bundle goes by the name "main.js". *)
Definition stripHash (name : string) : string :=
  if String.prefix "main." name then "main.js" else name.

End Demo.

(** ** util.js: the summing map

    [getStripHashedFileSize] reads [this.options.stripHash]; here the
    receiver's function is the argument [stripHash].  The sizes of the map
    are numbers.  A key enumerated from the map is a key of the map, so
    the read [originSizeMap[currentValue]] finds a size.  An entry of the
    result is a number, or the string that [+] gives once an operand is a
    member of [Object.prototype] or such a string. *)
Inductive amount : Type :=
| Total (n : Z)
| Text.

Definition getStripHashedFileSize_object (stripHash : string -> string)
    (originSizeMap : JS.object Z) : JS.instance amount :=
  JS.reduce
    (fun acc currentValue (_ : nat) =>
       let stripedName := stripHash currentValue in
       match JS.get originSizeMap currentValue with
       | Some size =>
           match JS.read acc stripedName with
           | JS.Own (Total n) =>
               if negb (n =? 0)
               then JS.put (fun _ => false) stripedName (Total (n + size)) acc
               else JS.put (fun _ => false) stripedName (Total size) acc
           | JS.Own Text | JS.Member _ => JS.put (fun _ => false) stripedName Text acc
           | JS.Nothing => JS.put (fun _ => false) stripedName (Total size) acc
           end
       | None => acc
       end)
    (JS.keys originSizeMap) JS.empty.

Definition getStripHashedFileSize (stripHash : string -> string)
    (originSizeMap : JS.object Z) : JS.object amount :=
  JS.own (getStripHashedFileSize_object stripHash originSizeMap).

(** ** Further views used in the proofs *)

(** The sum of the sizes of a map, and of those whose key de-hashes to [k]. *)
Definition total (o : JS.object Z) : Z := fold_right Z.add 0 (map snd o).

Definition sum_stripped (stripHash : string -> string) (k : string) (o : JS.object Z) : Z :=
  total (List.filter (fun e => String.eqb (stripHash (fst e)) k) o).

(** The sums by de-hashed name, entry after entry. *)
Definition summed (stripHash : string -> string) (originSizeMap : JS.object Z)
    : JS.object Z :=
  JS.reduce
    (fun acc currentValue (_ : nat) =>
       let stripedName := stripHash currentValue in
       match JS.get originSizeMap currentValue with
       | Some size =>
           match JS.get acc stripedName with
           | Some sum =>
               if negb (sum =? 0) then JS.set stripedName (sum + size) acc
               else JS.set stripedName size acc
           | None => JS.set stripedName size acc
           end
       | None => acc
       end)
    (JS.keys originSizeMap) [].

(** A table of numbers as a table of sums. *)
Definition totals (o : JS.object Z) : JS.object amount :=
  map (fun e => (fst e, Total (snd e))) o.

(** The sum of a table of sums, when every entry is a number. *)
Fixpoint sum_of (o : JS.object amount) : option Z :=
  match o with
  | [] => Some 0
  | (_, Total n) :: rest =>
      match sum_of rest with
      | Some t => Some (n + t)
      | None => None
      end
  | (_, Text) :: _ => None
  end.

(** One step of [summed], on an entry of the map. *)
Definition add_stripped (stripHash : string -> string) (acc : JS.object Z)
    (e : string * Z) : JS.object Z :=
  match JS.get acc (stripHash (fst e)) with
  | Some sum =>
      if negb (sum =? 0) then JS.set (stripHash (fst e)) (sum + snd e) acc
      else JS.set (stripHash (fst e)) (snd e) acc
  | None => JS.set (stripHash (fst e)) (snd e) acc
  end.

(** What a read gives as a number: nothing counts as 0. *)
Definition or_none (r : option Z) : Z :=
  match r with
  | Some n => n
  | None => 0
  end.



(** The world [w] with its network up or down. *)
Definition with_network (up : bool) (w : world) : world :=
  {| disk := disk w; now := now w; network := up; log := log w |}.

(** A scan of three files, one of which cannot be compressed, and a
    de-hashing that sends both chunks of the main bundle to "main.js". *)
Module Sample.

Definition lib : library := {|
  glob := fun _ _ _ => ["main.abc.js"; "main.def.js"; "vendor.js"];
  minimatch_filter := fun pattern file => negb (String.eqb pattern "*.map");
  gzipSize := fun source => Ok (Z.of_nat (String.length source));
  gzipSize_file := fun path =>
    if String.eqb path "dist/main.abc.js" then Ok 10
    else if String.eqb path "dist/main.def.js" then Ok 20
    else Throw CompressionError;
  brotliSize := fun source => Throw CompressionError;
  brotliSize_file := fun _ => Throw CompressionError;
  chalk := fun style text => text;
  prettyBytes := fun n => (NilZero.string_of_int (Z.to_int n) ++ " B")%string;
  path_join := fun a b => (a ++ "/" ++ b)%string;
  process_cwd := "/app"
|}.

Definition raw (compression : method) : Raw.options := {|
  Raw.compression := Some compression;
  Raw.pattern := None;
  Raw.exclude := Some "*.map";
  Raw.filename := None;
  Raw.publish := true;
  Raw.writeFile := None;
  Raw.mode := Some "production";
  Raw.stripHash := Some Demo.stripHash;
  Raw.save := false;
  Raw.decorateItem := None;
  Raw.decorateAfter := None
|}.

Definition opt : Opt.t := Core lib Demo.env (raw gzip).

Definition brotli_opt : Opt.t := Core lib Demo.env (raw brotli).

Definition sizes : JS.object Z :=
  [("main.abc.js", 10); ("main.def.js", 20); ("vendor.js", 5)].

End Sample.

(** * Properties *)

(** ** Objects: reads after writes, and the keys *)

Section ObjectFacts.
Context {V : Type}.
Implicit Types (o : JS.object V) (k : string) (v : V).

Lemma has_In o k : JS.has o k = true <-> In k (JS.keys o).
Proof.
  unfold JS.has. rewrite existsb_exists. split.
  - intros (x & Hin & Heq). apply String.eqb_eq in Heq. now subst.
  - intros Hin. exists k. split; [assumption | apply String.eqb_refl].
Qed.

Lemma has_false o k : JS.has o k = false <-> ~ In k (JS.keys o).
Proof.
  rewrite <- has_In. destruct (JS.has o k); split; intros; congruence.
Qed.

Lemma get_None o k : JS.get o k = None <-> ~ In k (JS.keys o).
Proof.
  induction o as [|[k' v'] o IH]; simpl.
  - tauto.
  - destruct (String.eqb_spec k' k) as [->|Hne].
    + split; [discriminate | intros H; exfalso; apply H; now left].
    + rewrite IH. split; [intros H [?|?]; congruence | tauto].
Qed.


Lemma get_app_fresh o1 o2 k :
  ~ In k (JS.keys o1) -> JS.get (o1 ++ o2) k = JS.get o2 k.
Proof.
  induction o1 as [|[k' v'] o1 IH]; simpl; [reflexivity|].
  intros Hnin. destruct (String.eqb_spec k' k) as [->|Hne].
  - exfalso. apply Hnin. now left.
  - apply IH. tauto.
Qed.

Lemma get_app_found o1 o2 k v :
  JS.get o1 k = Some v -> JS.get (o1 ++ o2) k = Some v.
Proof.
  induction o1 as [|[k' v'] o1 IH]; simpl; [discriminate|].
  destruct (String.eqb k' k); auto.
Qed.

Lemma keys_app o1 o2 : JS.keys (o1 ++ o2) = JS.keys o1 ++ JS.keys o2.
Proof. apply map_app. Qed.

Lemma keys_update o k v : JS.keys (JS.update k v o) = JS.keys o.
Proof.
  induction o as [|[k' v'] o IH]; simpl; [reflexivity|].
  destruct (String.eqb k' k); simpl; [reflexivity | now rewrite IH].
Qed.

Lemma get_update_eq o k v :
  In k (JS.keys o) -> JS.get (JS.update k v o) k = Some v.
Proof.
  induction o as [|[k' v'] o IH]; simpl; [tauto|].
  intros Hin. destruct (String.eqb_spec k' k) as [->|Hne]; simpl.
  - now rewrite String.eqb_refl.
  - destruct (String.eqb_spec k' k); [congruence|]. apply IH. tauto.
Qed.

Lemma get_update_ne o k k' v :
  k' <> k -> JS.get (JS.update k v o) k' = JS.get o k'.
Proof.
  intros Hne. induction o as [|[k0 v0] o IH]; simpl; [reflexivity|].
  destruct (String.eqb_spec k0 k) as [->|Hne0]; simpl.
  - destruct (String.eqb_spec k k'); [congruence | reflexivity].
  - now rewrite IH.
Qed.

(** A new key is spliced in somewhere; the entries around it stay. *)
Lemma insert_index_split n k v o :
  exists o1 o2, o = o1 ++ o2 /\ JS.insert_index n k v o = o1 ++ (k, v) :: o2.
Proof.
  induction o as [|[k' v'] o (o1 & o2 & Ho & Hi)]; simpl.
  - now exists [], [].
  - destruct (JS.array_index k') as [n'|].
    + destruct (n' <? n)%N.
      * exists ((k', v') :: o1), o2. simpl. now rewrite Hi, <- Ho.
      * now exists [], ((k', v') :: o).
    + now exists [], ((k', v') :: o).
Qed.

Lemma set_new_split o k v :
  JS.has o k = false ->
  exists o1 o2, o = o1 ++ o2 /\ JS.set k v o = o1 ++ (k, v) :: o2.
Proof.
  intros Hhas. unfold JS.set. rewrite Hhas.
  destruct (JS.array_index k) as [n|].
  - apply insert_index_split.
  - exists o, []. now rewrite app_nil_r.
Qed.

Lemma get_set_eq o k v : JS.get (JS.set k v o) k = Some v.
Proof.
  destruct (JS.has o k) eqn:Hhas.
  - unfold JS.set. rewrite Hhas. apply get_update_eq. now apply has_In.
  - destruct (set_new_split o k v Hhas) as (o1 & o2 & Ho & ->).
    apply has_false in Hhas. rewrite Ho, keys_app, in_app_iff in Hhas.
    rewrite get_app_fresh by tauto. simpl. now rewrite String.eqb_refl.
Qed.

Lemma get_set_ne o k k' v : k' <> k -> JS.get (JS.set k v o) k' = JS.get o k'.
Proof.
  intros Hne. destruct (JS.has o k) eqn:Hhas.
  - unfold JS.set. rewrite Hhas. now apply get_update_ne.
  - destruct (set_new_split o k v Hhas) as (o1 & o2 & Ho & ->). rewrite Ho.
    destruct (JS.get o1 k') as [x|] eqn:Hg.
    + now rewrite !(get_app_found _ _ _ _ Hg).
    + apply get_None in Hg. rewrite !get_app_fresh by assumption. simpl.
      destruct (String.eqb_spec k k'); [congruence | reflexivity].
Qed.

Lemma In_keys_set o k k' v :
  In k' (JS.keys (JS.set k v o)) <-> k' = k \/ In k' (JS.keys o).
Proof.
  destruct (JS.has o k) eqn:Hhas.
  - unfold JS.set. rewrite Hhas, keys_update. apply has_In in Hhas.
    split; [tauto | intros [->|?]; assumption].
  - destruct (set_new_split o k v Hhas) as (o1 & o2 & Ho & ->).
    rewrite Ho, !keys_app, !in_app_iff. simpl. intuition congruence.
Qed.

Lemma wf_set o k v : JS.wf o -> JS.wf (JS.set k v o).
Proof.
  unfold JS.wf. intros Hwf. destruct (JS.has o k) eqn:Hhas.
  - unfold JS.set. now rewrite Hhas, keys_update.
  - destruct (set_new_split o k v Hhas) as (o1 & o2 & Ho & ->).
    apply has_false in Hhas. rewrite Ho in Hwf, Hhas.
    rewrite keys_app in *. simpl.
    apply (Permutation_NoDup (Permutation_middle _ _ _)).
    now constructor.
Qed.

End ObjectFacts.

(** ** Runs of assignments *)

Section AssignFacts.
Context {V : Type}.
Implicit Types (ps : list (string * V)) (acc : JS.object V) (k : string) (v : V).

Lemma assign_app ps1 ps2 acc : assign (ps1 ++ ps2) acc = assign ps2 (assign ps1 acc).
Proof. apply fold_left_app. Qed.

Lemma assign_get_other ps acc k :
  ~ In k (map fst ps) -> JS.get (assign ps acc) k = JS.get acc k.
Proof.
  revert acc. induction ps as [|[k' v'] ps IH]; intros acc Hnin; simpl in *.
  - reflexivity.
  - rewrite IH by tauto. apply get_set_ne. intros ->. tauto.
Qed.

(** The last assignment to a key decides what the key reads. *)
Lemma assign_get_last pre post acc k v :
  ~ In k (map fst post) ->
  JS.get (assign (pre ++ (k, v) :: post) acc) k = Some v.
Proof.
  intros Hnin. rewrite assign_app. simpl.
  rewrite assign_get_other by assumption. apply get_set_eq.
Qed.

Lemma assign_keys ps acc k :
  In k (JS.keys (assign ps acc)) <-> In k (map fst ps) \/ In k (JS.keys acc).
Proof.
  revert acc. induction ps as [|[k' v'] ps IH]; intros acc; simpl.
  - tauto.
  - rewrite IH, In_keys_set. intuition congruence.
Qed.

Lemma assign_wf ps acc : JS.wf acc -> JS.wf (assign ps acc).
Proof.
  revert acc. induction ps as [|[k' v'] ps IH]; intros acc Hwf; simpl.
  - assumption.
  - apply IH. now apply wf_set.
Qed.

(** What a key reads was assigned to it, or was there before. *)
Lemma assign_get_Some ps acc k v :
  JS.get (assign ps acc) k = Some v -> In (k, v) ps \/ JS.get acc k = Some v.
Proof.
  revert acc. induction ps as [|[k' v'] ps IH]; intros acc Hget; simpl in *.
  - now right.
  - destruct (IH _ Hget) as [Hin|Hacc]; [now left; right|].
    destruct (String.eqb_spec k k') as [->|Hne].
    + rewrite get_set_eq in Hacc. injection Hacc as ->. now left; left.
    + rewrite get_set_ne in Hacc by assumption. now right.
Qed.

End AssignFacts.

(** ** util.js: [toMap] and [toFileMap] as runs of assignments *)

(** While an object has its prototype it has no own [__proto__]. *)
Definition guarded (o : JS.instance JS.value) : Prop :=
  JS.prototype o = true -> ~ In "__proto__" (JS.keys (JS.own o)).

Lemma put_run (ps : list (string * JS.value)) (o : JS.instance JS.value) :
  guarded o ->
  JS.own (fold_left (fun m p => JS.put JS.is_null (fst p) (snd p) m) ps o)
  = assign (settled (JS.prototype o) ps) (JS.own o).
Proof.
  revert o. induction ps as [|[k v] ps IH]; intros o Hguard; simpl; [reflexivity|].
  unfold JS.put at 2. simpl.
  destruct (String.eqb k "__proto__" && JS.prototype o) eqn:Hsetter; simpl.
  - apply andb_true_iff in Hsetter as [Hk Hproto]. apply String.eqb_eq in Hk. subst k.
    assert (Hhas : JS.has (JS.own o) "__proto__" = false)
      by (apply has_false; now apply Hguard).
    rewrite Hhas. simpl. destruct (JS.is_null v); simpl.
    + rewrite IH by (intros Habs; discriminate). reflexivity.
    + rewrite IH by assumption. now rewrite Hproto.
  - rewrite IH; [reflexivity|]. unfold guarded. simpl. intros Hproto Hin.
    rewrite Hproto, andb_true_r in Hsetter. apply String.eqb_neq in Hsetter.
    apply In_keys_set in Hin as [Heq|Hin]; [congruence|]. now apply Hguard.
Qed.

Lemma reduce_entries values names i acc :
  JS.reduce_from (fun map name j => JS.put JS.is_null name (JS.at_index values j) map)
                 i names acc
  = fold_left (fun m p => JS.put JS.is_null (fst p) (snd p) m)
              (entries_from i names values) acc.
Proof.
  revert i acc. induction names as [|name names IH]; intros i acc; simpl.
  - reflexivity.
  - apply IH.
Qed.

Lemma guarded_empty : guarded JS.empty.
Proof. intros _ []. Qed.

Lemma toMap_assign names values :
  toMap names values = assign (settled true (entries_from 0 names values)) [].
Proof.
  unfold toMap, toMap_object, JS.reduce. rewrite reduce_entries.
  exact (put_run _ JS.empty guarded_empty).
Qed.

Lemma entries_from_names i names values :
  map fst (entries_from i names values) = names.
Proof.
  revert i. induction names as [|name names IH]; intros i; simpl; [reflexivity|].
  now rewrite IH.
Qed.

(** Names and values of one list of pairs line up. *)
Lemma entries_from_pairs {A : Type} (f : A -> string) (g : A -> JS.value)
    (pad : list JS.value) (l : list A) :
  entries_from (length pad) (map f l) (pad ++ map g l) = map (fun a => (f a, g a)) l.
Proof.
  revert pad. induction l as [|a l IH]; intros pad; simpl; [reflexivity|].
  f_equal.
  - unfold JS.at_index. now rewrite app_nth2, Nat.sub_diag by lia.
  - specialize (IH (pad ++ [g a])). rewrite length_app, <- app_assoc in IH.
    simpl in IH. now rewrite Nat.add_1_r in IH.
Qed.

Lemma toMap_pairs {A : Type} (f : A -> string) (g : A -> JS.value) (l : list A) :
  toMap (map f l) (map g l) = assign (settled true (map (fun a => (f a, g a)) l)) [].
Proof.
  rewrite toMap_assign. now rewrite <- (entries_from_pairs f g [] l).
Qed.

Lemma toMap_wf names values : JS.wf (toMap names values).
Proof. rewrite toMap_assign. apply assign_wf. constructor. Qed.

(** *** What settles *)

Lemma settled_In b ps p : In p (settled b ps) -> In p ps.
Proof.
  revert b. induction ps as [|q ps IH]; intros b; simpl; [tauto|].
  destruct (String.eqb (fst q) "__proto__" && b); simpl; intros Hin.
  - right. now apply (IH _ Hin).
  - destruct Hin as [->|Hin]; [now left|]. right. now apply (IH _ Hin).
Qed.

(** Without [__proto__] among the names every assignment settles. *)
Lemma settled_plain b ps : ~ In "__proto__" (map fst ps) -> settled b ps = ps.
Proof.
  revert b. induction ps as [|q ps IH]; intros b Hnin; simpl; [reflexivity|].
  simpl in Hnin. destruct (String.eqb_spec (fst q) "__proto__") as [Heq|Hne]; simpl.
  - exfalso. apply Hnin. now left.
  - f_equal. apply IH. tauto.
Qed.

(** Without [null] among the values no assignment to [__proto__] does. *)
Lemma settled_numbers ps :
  Forall (fun p => JS.is_null (snd p) = false) ps ->
  settled true ps = List.filter (fun p => negb (String.eqb (fst p) "__proto__")) ps.
Proof.
  induction 1 as [|q ps Hq _ IH]; simpl; [reflexivity|].
  rewrite andb_true_r. destruct (String.eqb (fst q) "__proto__"); simpl.
  - now rewrite Hq.
  - now rewrite IH.
Qed.

Lemma assign_get_ext {V : Type} (ps : list (string * V)) (acc1 acc2 : JS.object V) k :
  JS.get acc1 k = JS.get acc2 k ->
  JS.get (assign ps acc1) k = JS.get (assign ps acc2) k.
Proof.
  revert acc1 acc2. induction ps as [|[k' v] ps IH]; intros acc1 acc2 Hsame; simpl.
  - assumption.
  - apply IH. simpl. destruct (String.eqb_spec k k') as [->|Hne].
    + now rewrite !get_set_eq.
    + now rewrite !get_set_ne.
Qed.

(** At every name but [__proto__] the table reads as if every assignment
    had settled. *)
Lemma settled_get b ps acc k :
  k <> "__proto__" ->
  JS.get (assign (settled b ps) acc) k = JS.get (assign ps acc) k.
Proof.
  intros Hk. revert b acc. induction ps as [|[k' v] ps IH]; intros b acc; simpl.
  - reflexivity.
  - destruct (String.eqb k' "__proto__" && b) eqn:Hsetter; simpl.
    + apply andb_true_iff in Hsetter as [Heq _]. apply String.eqb_eq in Heq. subst k'.
      rewrite IH. apply assign_get_ext. now rewrite get_set_ne.
    + apply IH.
Qed.

Lemma settled_keys b ps k :
  k <> "__proto__" -> In k (map fst (settled b ps)) <-> In k (map fst ps).
Proof.
  intros Hk. revert b. induction ps as [|[k' v] ps IH]; intros b; simpl; [tauto|].
  destruct (String.eqb k' "__proto__" && b) eqn:Hsetter; simpl.
  - apply andb_true_iff in Hsetter as [Heq _]. apply String.eqb_eq in Heq. subst k'.
    rewrite IH. split; [tauto|]. intros [Heq|Hin]; [congruence|assumption].
  - now rewrite IH.
Qed.

Lemma toMap_get names values k :
  k <> "__proto__" ->
  JS.get (toMap names values) k = JS.get (assign (entries_from 0 names values) []) k.
Proof. intros Hk. rewrite toMap_assign. now apply settled_get. Qed.

Lemma toMap_keys names values k :
  k <> "__proto__" -> In k (JS.keys (toMap names values)) <-> In k names.
Proof.
  intros Hk. rewrite toMap_assign, assign_keys, (settled_keys _ _ _ Hk), entries_from_names.
  simpl. tauto.
Qed.

Lemma entries_from_numbers i names values :
  Forall (fun v => JS.is_null v = false) values ->
  Forall (fun p => JS.is_null (snd p) = false) (entries_from i names values).
Proof.
  intros Hvalues. revert i. induction names as [|name names IH]; intros i; simpl;
    constructor; [|apply IH].
  simpl. unfold JS.at_index. destruct (nth_in_or_default i values JS.Undefined) as [Hin|Hdef].
  - rewrite List.Forall_forall in Hvalues. now apply Hvalues.
  - now rewrite Hdef.
Qed.

(** A map of numbers has no own [__proto__]. *)
Lemma toMap_numbers names values :
  Forall (fun v => JS.is_null v = false) values ->
  ~ In "__proto__" (JS.keys (toMap names values)).
Proof.
  intros Hvalues. rewrite toMap_assign, assign_keys.
  rewrite (settled_numbers _ (entries_from_numbers 0 names values Hvalues)).
  intros [Hin|[]]. apply in_map_iff in Hin as (p & Hp & Hin).
  apply filter_In in Hin as [_ Hne]. rewrite Hp in Hne. discriminate.
Qed.

Lemma reduce_stored files i acc :
  JS.reduce_from
    (fun result file (_ : nat) =>
       if JS.truthy (JS.Num (FileStat.size file))
       then JS.put JS.is_null (FileStat.filename file) (JS.Num (FileStat.size file)) result
       else result) i files acc
  = fold_left (fun m p => JS.put JS.is_null (fst p) (snd p) m) (stored_entries files) acc.
Proof.
  revert i acc. unfold stored_entries.
  induction files as [|file files IH]; intros i acc; simpl.
  - reflexivity.
  - destruct (FileStat.size file =? 0); simpl; apply IH.
Qed.

Lemma stored_entries_numbers files :
  Forall (fun p => JS.is_null (snd p) = false) (stored_entries files).
Proof.
  unfold stored_entries. apply List.Forall_forall. intros p Hin.
  apply in_map_iff in Hin as (file & <- & _). reflexivity.
Qed.

Lemma toFileMap_assign files :
  toFileMap files = assign (settled true (stored_entries files)) [].
Proof.
  unfold toFileMap, toFileMap_object, JS.reduce. rewrite reduce_stored.
  exact (put_run _ JS.empty guarded_empty).
Qed.

Lemma toFileMap_wf files : JS.wf (toFileMap files).
Proof. rewrite toFileMap_assign. apply assign_wf. constructor. Qed.

(** [toFileMap] stores numbers: its map has no own [__proto__]. *)
Lemma toFileMap_proto files : JS.get (toFileMap files) "__proto__" = None.
Proof.
  apply get_None. rewrite toFileMap_assign, assign_keys.
  rewrite (settled_numbers _ (stored_entries_numbers files)).
  intros [Hin|[]]. apply in_map_iff in Hin as (p & Hp & Hin).
  apply filter_In in Hin as [_ Hne]. rewrite Hp in Hne. discriminate.
Qed.

(** ** util.js: [dedupe] keeps first occurrences *)

Lemma mem_In (x : string) (l : list string) : existsb (String.eqb x) l = true <-> In x l.
Proof.
  rewrite existsb_exists. split.
  - intros (y & Hin & Heq). apply String.eqb_eq in Heq. now subst.
  - intros Hin. exists x. split; [assumption | apply String.eqb_refl].
Qed.

Lemma mem_false (x : string) (l : list string) :
  existsb (String.eqb x) l = false <-> ~ In x l.
Proof.
  rewrite <- mem_In. destruct (existsb _ l); split; intros; congruence.
Qed.

Lemma indexOf_bounds arr item : -1 <= JS.indexOf arr item < Z.of_nat (length arr).
Proof.
  induction arr as [|x arr IH]; simpl; [lia|].
  destruct (String.eqb x item); [lia|].
  destruct (Z.ltb_spec (JS.indexOf arr item) 0); lia.
Qed.

Lemma indexOf_In arr item : In item arr <-> 0 <= JS.indexOf arr item.
Proof.
  induction arr as [|x arr IH]; simpl; [lia|].
  destruct (String.eqb_spec x item) as [->|Hne].
  - split; [lia | now left].
  - destruct (Z.ltb_spec (JS.indexOf arr item) 0) as [Hlt|Hge].
    + split; [|lia]. intros [?|Hin]; [congruence|]. apply IH in Hin. lia.
    + split; [lia|]. intros _. right. now apply IH.
Qed.

Lemma indexOf_earlier pre rest item :
  In item pre -> JS.indexOf (pre ++ rest) item < Z.of_nat (length pre).
Proof.
  induction pre as [|x pre IH]; simpl; [tauto|].
  intros Hin. destruct (String.eqb_spec x item) as [->|Hne]; [lia|].
  destruct Hin as [?|Hin]; [congruence|]. specialize (IH Hin).
  destruct (Z.ltb_spec (JS.indexOf (pre ++ rest) item) 0); lia.
Qed.

Lemma indexOf_first pre rest item :
  ~ In item pre -> JS.indexOf (pre ++ item :: rest) item = Z.of_nat (length pre).
Proof.
  induction pre as [|x pre IH]; simpl; intros Hnin.
  - now rewrite String.eqb_refl.
  - destruct (String.eqb_spec x item) as [->|Hne]; [tauto|].
    rewrite IH by tauto. destruct (Z.ltb_spec (Z.of_nat (length pre)) 0); lia.
Qed.

(** [dedupe] at the position of [item] asks whether [item] occurred before. *)
Lemma dedupe_at pre rest item :
  dedupe item (length pre) (pre ++ item :: rest) = negb (existsb (String.eqb item) pre).
Proof.
  unfold dedupe. destruct (existsb (String.eqb item) pre) eqn:Hmem; simpl.
  - apply mem_In in Hmem. apply Z.eqb_neq.
    pose proof (indexOf_earlier pre (item :: rest) item Hmem). lia.
  - apply mem_false in Hmem. rewrite indexOf_first by assumption. apply Z.eqb_refl.
Qed.

Lemma filter_dedupe_from pre rest :
  JS.filter_from dedupe (pre ++ rest) (length pre) rest = first_seen pre rest.
Proof.
  revert pre. induction rest as [|x rest IH]; intros pre; simpl; [reflexivity|].
  rewrite dedupe_at. specialize (IH (pre ++ [x])).
  rewrite <- app_assoc, length_app, Nat.add_1_r in IH. simpl in IH.
  destruct (existsb (String.eqb x) pre); simpl; now rewrite IH.
Qed.

Lemma filter_dedupe arr : JS.filter dedupe arr = first_seen [] arr.
Proof. apply (filter_dedupe_from [] arr). Qed.

Lemma first_seen_In seen l x : In x (first_seen seen l) <-> In x l /\ ~ In x seen.
Proof.
  revert seen. induction l as [|y l IH]; intros seen; simpl; [tauto|].
  destruct (existsb (String.eqb y) seen) eqn:Hmem.
  - apply mem_In in Hmem. rewrite IH, in_app_iff. simpl.
    split; [tauto|]. intros [[->|Hin] Hnin]; [tauto|].
    split; [assumption|]. intros [?|[->|[]]]; [tauto|].
    contradiction.
  - apply mem_false in Hmem. simpl. rewrite IH, in_app_iff. simpl.
    destruct (String.eqb_spec y x) as [->|Hne]; [tauto|].
    intuition congruence.
Qed.

Lemma first_seen_NoDup seen l : List.NoDup (first_seen seen l).
Proof.
  revert seen. induction l as [|y l IH]; intros seen; simpl; [constructor|].
  destruct (existsb (String.eqb y) seen); [apply IH|].
  constructor; [|apply IH]. rewrite first_seen_In, in_app_iff. simpl. tauto.
Qed.

Lemma first_seen_app seen l1 l2 :
  first_seen seen (l1 ++ l2) = first_seen seen l1 ++ first_seen (seen ++ l1) l2.
Proof.
  revert seen. induction l1 as [|y l1 IH]; intros seen; simpl.
  - now rewrite app_nil_r.
  - rewrite IH, <- app_assoc. simpl.
    now destruct (existsb (String.eqb y) seen).
Qed.

Lemma first_seen_distinct seen l :
  List.NoDup l ->
  first_seen seen l = List.filter (fun x => negb (existsb (String.eqb x) seen)) l.
Proof.
  intros Hnd. revert seen. induction Hnd as [|y l Hnin Hnd IH]; intros seen; simpl.
  - reflexivity.
  - rewrite IH.
    assert (Hext : List.filter (fun x => negb (existsb (String.eqb x) (seen ++ [y]))) l
                   = List.filter (fun x => negb (existsb (String.eqb x) seen)) l).
    { apply filter_ext_in. intros x Hin. rewrite existsb_app. simpl.
      destruct (String.eqb_spec x y) as [->|Hne]; [contradiction|].
      now rewrite !orb_false_r. }
    rewrite Hext. now destruct (existsb (String.eqb y) seen).
Qed.

(** ** The reconciler: one record per unique file name *)

Section Reconciler.
Variable lib : library.
Variable opt : Opt.t.
Implicit Types (before after : JS.object JS.value).

Lemma loop_from before after width (files : list string) (items : list Item.t) (out : string) :
  fst (fold_left
         (fun '(items, output) name =>
            let item := item_of lib width before after name in
            (items ++ [item], (output ++ line_of opt item)%string))
         files (items, out))
  = items ++ map (item_of lib width before after) files.
Proof.
  revert items out. induction files as [|name files IH]; intros items out; simpl.
  - now rewrite app_nil_r.
  - rewrite IH, <- app_assoc. reflexivity.
Qed.

Lemma loop_items before after files :
  fst (loop lib opt before after files)
  = map (item_of lib (width_of files) before after) files.
Proof. unfold loop. now rewrite loop_from. Qed.

Lemma reconcile_items before after :
  reconcile lib opt before after
  = map (item_of lib (width_of (unique_files before after)) before after)
        (unique_files before after).
Proof. apply loop_items. Qed.

Lemma item_of_fields width before after name :
  let item := item_of lib width before after name in
  Item.name item = name
  /\ Item.sizeBefore item = JS.or_zero (JS.get before name)
  /\ Item.size item = JS.or_zero (JS.get after name)
  /\ Item.delta item = Item.size item - Item.sizeBefore item
  /\ Item.color item = color_of (Item.size item)
  /\ (Item.sizeText item, Item.deltaText item)
     = texts lib (Item.size item) (Item.delta item) (Item.color item).
Proof.
  unfold item_of. cbv zeta.
  destruct (texts lib _ _ _) as [sizeText deltaText] eqn:Htexts.
  cbn [Item.name Item.sizeBefore Item.size Item.delta Item.color
       Item.sizeText Item.deltaText].
  now rewrite Htexts.
Qed.

Lemma reconcile_names before after :
  map Item.name (reconcile lib opt before after) = unique_files before after.
Proof.
  rewrite reconcile_items, map_map.
  erewrite map_ext; [apply map_id|]. intros name.
  apply (item_of_fields _ before after name).
Qed.





(** C2. Union completeness: the keys of the reconciled records are the
    keys of [before] in their order followed by the keys of [after] that
    [before] does not have, in their order; every key of either map
    appears, and appears once. *)
Theorem reconcile_union before after :
  JS.wf before -> JS.wf after ->
  let names := map Item.name (reconcile lib opt before after) in
  names = JS.keys before ++ List.filter (fun k => negb (JS.has before k)) (JS.keys after)
  /\ List.NoDup names
  /\ (forall k, In k names <-> In k (JS.keys before) \/ In k (JS.keys after)).
Proof.
  intros Hb Ha. cbv zeta. rewrite reconcile_names. unfold unique_files.
  rewrite filter_dedupe. split; [|split].
  - rewrite first_seen_app. simpl.
    rewrite (first_seen_distinct [] _ Hb), (first_seen_distinct _ _ Ha). simpl.
    f_equal. clear. induction (JS.keys before) as [|k l IH]; simpl; congruence.
  - apply first_seen_NoDup.
  - intros k. rewrite first_seen_In, in_app_iff. simpl. tauto.
Qed.

(** C5. Severity colour: red above 100 KB, yellow above 40 KB up to
    100 KB, cyan above 20 KB up to 40 KB, green otherwise; each boundary
    itself belongs to the tier below. *)
Theorem item_color width before after name :
  let item := item_of lib width before after name in
  let size := Item.size item in
  (Item.color item = "red" <-> size > 100 * 1024)
  /\ (Item.color item = "yellow" <-> 40 * 1024 < size <= 100 * 1024)
  /\ (Item.color item = "cyan" <-> 20 * 1024 < size <= 40 * 1024)
  /\ (Item.color item = "green" <-> size <= 20 * 1024)
  /\ color_of (100 * 1024) = "yellow" /\ color_of (100 * 1024 + 1) = "red"
  /\ color_of (40 * 1024) = "cyan" /\ color_of (40 * 1024 + 1) = "yellow"
  /\ color_of (20 * 1024) = "green" /\ color_of (20 * 1024 + 1) = "cyan".
Proof.
  destruct (item_of_fields width before after name) as (_ & _ & _ & _ & Hcolor & _).
  cbv zeta. rewrite Hcolor. unfold color_of.
  generalize (Item.size (item_of lib width before after name)). intros size.
  destruct (Z.gtb_spec size (100 * 1024)), (Z.gtb_spec size (40 * 1024)),
    (Z.gtb_spec size (20 * 1024));
    repeat split; intros; first [reflexivity | discriminate | lia].
Qed.

End Reconciler.

(** ** The reporter: size text and delta text *)

(** C6. Delta annotation.  With [base] the coloured size and [plain] the
    delta printed with its sign ("+" in front of a positive one): a delta
    of magnitude at most 1 leaves the size text bare and the delta text
    empty; any larger delta is appended in parentheses; above 1024 the
    size text is bold and the delta text red; below -10 the delta text is
    green; in between the delta text is the plain string. *)
Theorem item_delta_text (lib : library) (width : nat)
    (before after : JS.object JS.value) (name : string) :
  let item := item_of lib width before after name in
  let delta := Item.delta item in
  let base := chalk lib (Item.color item) (prettyBytes lib (Item.size item)) in
  let plain := ((if delta >? 0 then "+" else "") ++ prettyBytes lib delta)%string in
  (Z.abs delta <= 1 ->
     Item.deltaText item = "" /\ Item.sizeText item = base)
  /\ (Z.abs delta > 1 ->
     exists shown, Item.sizeText item = (shown ++ " (" ++ Item.deltaText item ++ ")")%string
                   /\ (Item.deltaText item = plain
                       \/ Item.deltaText item = chalk lib "red" plain
                       \/ Item.deltaText item = chalk lib "green" plain))
  /\ (delta > 1024 ->
     Item.deltaText item = chalk lib "red" ("+" ++ prettyBytes lib delta)%string
     /\ Item.sizeText item
        = (chalk lib "bold" base ++ " (" ++ Item.deltaText item ++ ")")%string)
  /\ (delta < -10 ->
     Item.deltaText item = chalk lib "green" (prettyBytes lib delta)
     /\ Item.sizeText item = (base ++ " (" ++ Item.deltaText item ++ ")")%string)
  /\ (Z.abs delta > 1 -> -10 <= delta <= 1024 ->
     Item.deltaText item = plain
     /\ Item.sizeText item = (base ++ " (" ++ plain ++ ")")%string).
Proof.
  destruct (item_of_fields lib width before after name) as (_ & _ & _ & _ & _ & Htexts).
  cbv zeta.
  generalize dependent (Item.sizeText (item_of lib width before after name)).
  generalize dependent (Item.deltaText (item_of lib width before after name)).
  generalize (Item.color (item_of lib width before after name)).
  generalize (Item.size (item_of lib width before after name)).
  generalize (Item.delta (item_of lib width before after name)).
  intros delta size color deltaText sizeText Htexts. unfold texts in Htexts.
  destruct (Z.eqb_spec delta 0), (Z.gtb_spec (Z.abs delta) 1),
    (Z.gtb_spec delta 1024), (Z.ltb_spec delta (-10)), (Z.gtb_spec delta 0);
    simpl in Htexts; try lia; injection Htexts as -> ->;
    repeat split; intros; try lia; eauto.
Qed.

(** ** The scanner: colliding de-hashed names *)


(** ** Runs: what each asynchronous function leaves behind *)

Lemma after_same w : after w (disk w) [] = w.
Proof. destruct w. unfold after. simpl. now rewrite app_nil_r. Qed.

Lemma after_after w d c d' c' : after (after w d c) d' c' = after w d' (c ++ c').
Proof. unfold after. simpl. now rewrite app_assoc. Qed.

Lemma bind_run {A B : Type} (m : M A) (k : A -> M B) w a w' :
  m w = (Ok a, w') -> bind m k w = k a w'.
Proof. intros Hm. unfold bind. now rewrite Hm. Qed.

Lemma record_run c w : record c w = (Ok tt, after w (disk w) [c]).
Proof. reflexivity. Qed.

Lemma publishDiff_run env diff filename w :
  publishDiff env diff filename w
  = (Ok tt, after w (disk w) (diff_calls env (network w) diff filename)).
Proof.
  unfold publishDiff, diff_calls, bind, try_catch, axios_post, bind, record, ret, after.
  destruct w as [d t up l]. simpl.
  destruct (not_test env && string_truthy (ci env) && String.eqb (event env) "pull_request");
    simpl; [destruct up; simpl|]; now rewrite <- ?app_assoc.
Qed.

Lemma publishSizes_run env size filename w :
  publishSizes env size filename w
  = (Ok tt, after w (disk w) (size_calls env (network w) size filename)).
Proof.
  unfold publishSizes, size_calls, bind, try_catch, axios_post, bind, record, ret, after.
  destruct w as [d t up l]. simpl.
  destruct (not_test env && string_truthy (ci env) && String.eqb (event env) "push"
            && String.eqb (branch env) "master");
    simpl; [destruct up; simpl|]; now rewrite <- ?app_assoc.
Qed.

Lemma readFromDisk_run filename w :
  readFromDisk filename w = (Ok (stored_history (disk w) filename), w).
Proof.
  unfold readFromDisk, stored_history, try_catch, bind, fs.readJSON, ret, throw.
  destruct (disk w !! filename) as [[|[history|]]|]; reflexivity.
Qed.

Lemma writeToDisk_run env opt filename stats w :
  writeToDisk env opt filename stats w
  = (Ok tt,
     if persists opt stats then
       let data := stats :: stored_history (disk w) filename in
       after w
         (if Opt.writeFile opt then <[filename := Json (JArray data)]> (disk w) else disk w)
         (if Opt.publish opt then size_calls env (network w) data (Opt.filename opt) else [])
     else w).
Proof.
  unfold writeToDisk, persists.
  destruct (is_production opt && existsb _ (Stats.files stats)); [|reflexivity].
  rewrite (bind_run _ _ _ _ _ (readFromDisk_run filename w)).
  unfold when, bind, fs.ensureFile, fs.writeJSON, ret.
  destruct (Opt.writeFile opt), (Opt.publish opt); simpl.
  - destruct (disk w !! filename) eqn:Hfile; rewrite publishSizes_run; simpl;
      unfold after; simpl; rewrite ?insert_insert_eq; reflexivity.
  - destruct (disk w !! filename) eqn:Hfile; simpl;
      unfold after; simpl; rewrite ?insert_insert_eq, ?app_nil_r; reflexivity.
  - rewrite publishSizes_run. reflexivity.
  - now rewrite after_same.
Qed.

Lemma save_run env opt items w :
  let stats := snapshot_of w items in
  let data := stats :: stored_history (disk w) (Opt.filepath opt) in
  save env opt items w
  = (Ok tt,
     after w
       (if persists opt stats && Opt.writeFile opt
        then <[Opt.filepath opt := Json (JArray data)]> (disk w)
        else disk w)
       (save_calls env (network w) opt (persists opt stats) stats data)).
Proof.
  cbv zeta. unfold save, Date_now, bind at 1, save_calls. fold (snapshot_of w items).
  set (stats := snapshot_of w items).
  assert (Hdiff : when (Opt.publish opt) (publishDiff env stats (Opt.filename opt)) w
                  = (Ok tt, after w (disk w)
                       (if Opt.publish opt
                        then diff_calls env (network w) stats (Opt.filename opt) else []))).
  { unfold when. destruct (Opt.publish opt); [apply publishDiff_run|].
    unfold ret. now rewrite after_same. }
  rewrite (bind_run _ _ _ _ _ Hdiff).
  set (w1 := after w _ _).
  assert (Hhook : when (Opt.save opt) (record (SaveHook stats)) w1
                  = (Ok tt, after w1 (disk w1) (if Opt.save opt then [SaveHook stats] else []))).
  { unfold when. destruct (Opt.save opt); [apply record_run|].
    unfold ret. now rewrite after_same. }
  rewrite (bind_run _ _ _ _ _ Hhook), writeToDisk_run. f_equal.
  subst w1. destruct (persists opt stats); simpl.
  - rewrite !after_after. simpl. reflexivity.
  - rewrite !after_after. simpl. now rewrite !app_nil_r.
Qed.

(** ** The history: sorted, newest first *)

Lemma sort_insert_perm {A : Type} (compare : A -> A -> Z) (x : A) (l : list A) :
  Permutation (x :: l) (sort_insert compare x l).
Proof.
  induction l as [|y l IH]; simpl; [reflexivity|].
  destruct (compare x y <=? 0); [reflexivity|].
  rewrite perm_swap. now constructor.
Qed.

Lemma sort_perm {A : Type} (compare : A -> A -> Z) (l : list A) :
  Permutation l (sort compare l).
Proof.
  induction l as [|x l IH]; simpl; [reflexivity|].
  rewrite <- sort_insert_perm. now constructor.
Qed.

Lemma sort_insert_sorted (x : Stats.t) (l : list Stats.t) :
  StronglySorted newer_first l ->
  StronglySorted newer_first (sort_insert by_timestamp x l).
Proof.
  induction 1 as [|y l Hsorted IH Hall]; simpl.
  - repeat constructor.
  - unfold by_timestamp at 1. destruct (Z.leb_spec (Stats.timestamp y - Stats.timestamp x) 0).
    + constructor; [now constructor|]. constructor; [unfold newer_first; lia|].
      eapply List.Forall_impl; [|exact Hall]. unfold newer_first. intros; lia.
    + constructor; [assumption|].
      apply (Permutation_Forall (sort_insert_perm by_timestamp x l)).
      constructor; [unfold newer_first; lia | assumption].
Qed.

Lemma sort_sorted (l : list Stats.t) : StronglySorted newer_first (sort by_timestamp l).
Proof.
  induction l as [|x l IH]; simpl; [constructor|]. now apply sort_insert_sorted.
Qed.

(** The head of a sorted history is a most recent snapshot of the stored one. *)
Lemma sort_head (stored : list Stats.t) (latest : Stats.t) (rest : list Stats.t) :
  sort by_timestamp stored = latest :: rest ->
  In latest stored
  /\ forall s, In s stored -> Stats.timestamp s <= Stats.timestamp latest.
Proof.
  intros Hsort. pose proof (sort_perm by_timestamp stored) as Hperm.
  pose proof (sort_sorted stored) as Hsorted. rewrite Hsort in Hperm, Hsorted.
  split.
  - apply (Permutation_in _ (Permutation_sym Hperm)). now left.
  - intros s Hin. apply (Permutation_in _ Hperm) in Hin.
    inversion Hsorted as [|? ? _ Hall]; subst.
    destruct Hin as [->|Hin]; [lia|].
    rewrite List.Forall_forall in Hall. now apply Hall.
Qed.

(** C9. Reading the history never fails: a missing or unparsable file, or
    one that holds no array, reads as the empty history; an array of
    snapshots reads as the same snapshots sorted by timestamp, newest
    first.  The world is left as it was. *)
Theorem readFromDisk_history (filename : string) (w : world) :
  exists history,
    readFromDisk filename w = (Ok history, w)
    /\ match disk w !! filename with
       | Some (Json (JArray stored)) =>
           Permutation stored history
           /\ StronglySorted (fun a b => Stats.timestamp a >= Stats.timestamp b) history
       | Some (Json JOther) | Some Unparsable | None => history = []
       end.
Proof.
  exists (stored_history (disk w) filename). split; [apply readFromDisk_run|].
  unfold stored_history. destruct (disk w !! filename) as [[|[stored|]]|]; try reflexivity.
  split; [apply sort_perm|].
  pose proof (sort_sorted stored) as Hsorted. unfold by_timestamp in Hsorted.
  induction Hsorted as [|s l _ IH Hall]; constructor; [assumption|].
  eapply List.Forall_impl; [|exact Hall]. unfold newer_first. intros; lia.
Qed.

(** ** The baseline loader *)

Lemma load_run lib opt outputPath w :
  load lib opt outputPath w = (Ok (baseline lib opt outputPath (disk w)), w).
Proof.
  unfold load. rewrite (bind_run _ _ _ _ _ (readFromDisk_run (Opt.filepath opt) w)).
  unfold baseline. destruct (stored_history (disk w) (Opt.filepath opt)) as [|[t files] rest];
    reflexivity.
Qed.

Lemma stored_entries_app files1 files2 :
  stored_entries (files1 ++ files2) = stored_entries files1 ++ stored_entries files2.
Proof. unfold stored_entries. now rewrite List.filter_app, map_app. Qed.

Lemma stored_entries_In files k v :
  In (k, v) (stored_entries files) <->
  exists file, In file files /\ FileStat.filename file = k
               /\ FileStat.size file <> 0 /\ v = JS.Num (FileStat.size file).
Proof.
  unfold stored_entries. rewrite in_map_iff. split.
  - intros (file & [= <- <-] & Hin). apply filter_In in Hin as [Hin Hsize].
    exists file. repeat split; try assumption.
    now apply Z.eqb_neq, negb_true_iff.
  - intros (file & Hin & <- & Hsize & ->). exists file. split; [reflexivity|].
    apply filter_In. split; [assumption|]. now apply negb_true_iff, Z.eqb_neq.
Qed.

Lemma toFileMap_get_Some files k v :
  JS.get (toFileMap files) k = Some v ->
  exists file, In file files /\ FileStat.filename file = k
               /\ FileStat.size file <> 0 /\ v = JS.Num (FileStat.size file).
Proof.
  rewrite toFileMap_assign. intros Hget.
  apply assign_get_Some in Hget as [Hin|Hempty]; [|discriminate].
  now apply stored_entries_In, (settled_In true).
Qed.

(** An entry with a size decides its name unless a later entry with a
    size has the same name. *)
Lemma toFileMap_get_last pre file post :
  FileStat.filename file <> "__proto__" ->
  FileStat.size file <> 0 ->
  (forall later, In later post -> FileStat.filename later = FileStat.filename file ->
                 FileStat.size later = 0) ->
  JS.get (toFileMap (pre ++ file :: post)) (FileStat.filename file)
  = Some (JS.Num (FileStat.size file)).
Proof.
  intros Hplain Hsize Hlater.
  rewrite toFileMap_assign, (settled_get _ _ _ _ Hplain), stored_entries_app.
  change (file :: post) with ([file] ++ post). rewrite stored_entries_app.
  unfold stored_entries at 2. simpl.
  apply Z.eqb_neq in Hsize. rewrite Hsize. simpl. apply assign_get_last.
  rewrite in_map_iff. intros ([k v] & Hk & Hin). simpl in Hk. subst k.
  apply stored_entries_In in Hin as (later & Hin & Hname & Hnz & _).
  now apply Hnz, Hlater.
Qed.

Lemma NoDup_map_eq {A B : Type} (f : A -> B) (l : list A) (a b : A) :
  List.NoDup (map f l) -> In a l -> In b l -> f a = f b -> a = b.
Proof.
  induction l as [|x l IH]; simpl; [tauto|].
  intros Hnd Ha Hb Heq. inversion Hnd as [|? ? Hnin Hnd']; subst.
  destruct Ha as [->|Ha], Hb as [->|Hb]; auto.
  - exfalso. apply Hnin. rewrite Heq. now apply in_map.
  - exfalso. apply Hnin. rewrite <- Heq. now apply in_map.
Qed.

Lemma toFileMap_distinct files file :
  List.NoDup (map FileStat.filename files) -> In file files ->
  JS.get (toFileMap files) (FileStat.filename file)
  = if (FileStat.size file =? 0) || String.eqb (FileStat.filename file) "__proto__"
    then None else Some (JS.Num (FileStat.size file)).
Proof.
  intros Hnd Hin. destruct (Z.eqb_spec (FileStat.size file) 0) as [Hzero|Hsize]; simpl.
  - destruct (JS.get (toFileMap files) (FileStat.filename file)) as [v|] eqn:Hget;
      [|reflexivity].
    apply toFileMap_get_Some in Hget as (other & Hother & Hname & Hnz & _).
    now rewrite (NoDup_map_eq _ _ _ _ Hnd Hother Hin Hname) in Hnz.
  - destruct (String.eqb_spec (FileStat.filename file) "__proto__") as [Hproto|Hplain].
    { rewrite Hproto. apply toFileMap_proto. }
    destruct (in_split _ _ Hin) as (pre & post & ->).
    apply toFileMap_get_last; [assumption|assumption|]. intros later Hlater Hname.
    rewrite map_app in Hnd. simpl in Hnd. apply NoDup_remove_2 in Hnd.
    exfalso. apply Hnd. rewrite in_app_iff. right. rewrite <- Hname. now apply in_map.
Qed.

(** C4. With a stored history that is not empty, [load] returns the map
    of the files of a most recent snapshot: what a name reads is the
    non-zero size of a stored entry of that name; a name whose entries all
    have size zero is absent, and so is [__proto__]; an entry with a
    non-zero size and a name other than [__proto__] gives its name that
    size, unless a later entry of the same name has a size (when the file
    names of a snapshot are distinct, each entry of size zero or of name
    [__proto__] is absent and each other entry maps its name to its
    size). *)
Theorem load_latest (lib : library) (opt : Opt.t) (outputPath : string) (w : world)
    (stored : list Stats.t) :
  disk w !! Opt.filepath opt = Some (Json (JArray stored)) ->
  stored <> [] ->
  exists latest,
    In latest stored
    /\ (forall s, In s stored -> Stats.timestamp s <= Stats.timestamp latest)
    /\ load lib opt outputPath w = (Ok (toFileMap (Stats.files latest)), w)
    /\ (forall k v, JS.get (toFileMap (Stats.files latest)) k = Some v ->
          exists file, In file (Stats.files latest) /\ FileStat.filename file = k
                       /\ FileStat.size file <> 0 /\ v = JS.Num (FileStat.size file))
    /\ (forall k, (forall file, In file (Stats.files latest) -> FileStat.filename file = k ->
                                FileStat.size file = 0) ->
          JS.get (toFileMap (Stats.files latest)) k = None)
    /\ JS.get (toFileMap (Stats.files latest)) "__proto__" = None
    /\ (forall pre file post,
          Stats.files latest = pre ++ file :: post ->
          FileStat.filename file <> "__proto__" ->
          FileStat.size file <> 0 ->
          (forall later, In later post ->
                         FileStat.filename later = FileStat.filename file ->
                         FileStat.size later = 0) ->
          JS.get (toFileMap (Stats.files latest)) (FileStat.filename file)
          = Some (JS.Num (FileStat.size file)))
    /\ (List.NoDup (map FileStat.filename (Stats.files latest)) ->
        forall file, In file (Stats.files latest) ->
          JS.get (toFileMap (Stats.files latest)) (FileStat.filename file)
          = if (FileStat.size file =? 0) || String.eqb (FileStat.filename file) "__proto__"
            then None else Some (JS.Num (FileStat.size file))).
Proof.
  intros Hfile Hne.
  destruct (sort by_timestamp stored) as [|latest rest] eqn:Hsort.
  { pose proof (sort_perm by_timestamp stored) as Hperm. rewrite Hsort in Hperm.
    apply Permutation_sym, Permutation_nil in Hperm. contradiction. }
  exists latest. destruct (sort_head _ _ _ Hsort) as [Hin Hmax].
  split; [assumption|]. split; [assumption|].
  split; [|split; [|split; [|split; [|split]]]].
  - rewrite load_run. unfold baseline, stored_history. rewrite Hfile.
    unfold by_timestamp in Hsort. rewrite Hsort. now destruct latest.
  - apply toFileMap_get_Some.
  - intros k Hzero.
    destruct (JS.get (toFileMap (Stats.files latest)) k) as [v|] eqn:Hget; [|reflexivity].
    apply toFileMap_get_Some in Hget as (file & Hfilein & Hname & Hnz & _).
    exfalso. now apply Hnz, Hzero.
  - apply toFileMap_proto.
  - intros pre file post -> Hname Hsize Hlater. now apply toFileMap_get_last.
  - intros Hnd file Hfilein. now apply toFileMap_distinct.
Qed.

(** ** The persister: what one invocation calls and writes *)

Lemma persists_true opt stats :
  persists opt stats = true <->
  Opt.mode opt = Some "production"
  /\ Exists (fun file => FileStat.diff file <> 0) (Stats.files stats).
Proof.
  unfold persists, is_production. rewrite andb_true_iff, existsb_exists, List.Exists_exists.
  split.
  - intros [Hmode (file & Hin & Hdiff)]. split.
    + destruct (Opt.mode opt) as [m|]; [|discriminate].
      apply String.eqb_eq in Hmode. now subst.
    + exists file. split; [assumption|]. now apply Z.eqb_neq, negb_true_iff.
  - intros [-> (file & Hin & Hdiff)]. split; [reflexivity|].
    exists file. split; [assumption|]. now apply negb_true_iff, Z.eqb_neq.
Qed.

Lemma persists_false opt stats :
  persists opt stats = false <->
  Opt.mode opt <> Some "production"
  \/ Forall (fun file => FileStat.diff file = 0) (Stats.files stats).
Proof.
  rewrite <- not_true_iff_false, persists_true. split.
  - intros Hnot. destruct (decide (Opt.mode opt = Some "production"))
      as [Hmode|Hmode]; [|now left].
    right. apply List.Forall_forall. intros file Hin.
    destruct (Z.eq_dec (FileStat.diff file) 0) as [|Hdiff]; [assumption|].
    exfalso. apply Hnot. split; [assumption|]. apply List.Exists_exists. eauto.
  - intros [Hmode|Hall] [Hprod Hex]; [contradiction|].
    apply List.Exists_exists in Hex as (file & Hin & Hdiff).
    rewrite List.Forall_forall in Hall. now apply Hdiff, Hall.
Qed.

Lemma outputSizes_abort lib env opt assets outputPath w e :
  records lib opt assets outputPath w = Throw e ->
  outputSizes lib env opt assets outputPath w = (Throw e, w).
Proof.
  unfold records, outputSizes. intros Hrec.
  rewrite (bind_run _ _ _ _ _ (load_run lib opt outputPath w)).
  unfold lift, bind.
  destruct (Promise_all _) as [sizes|e']; [discriminate|]. now injection Hrec as ->.
Qed.


Lemma sort_length {A : Type} (compare : A -> A -> Z) (l : list A) :
  length (sort compare l) = length l.
Proof. symmetry. apply Permutation_length, sort_perm. Qed.









(** ** Invariants of the maps and snapshots an invocation builds *)

Lemma baseline_wf lib opt outputPath d : JS.wf (baseline lib opt outputPath d).
Proof.
  unfold baseline. destruct (stored_history d (Opt.filepath opt));
    [apply toMap_wf | apply toFileMap_wf].
Qed.


(** ** The disk scan behind the baseline *)

(** The scan itself always returns, and leaves the world alone. *)
Lemma getSizes_returns lib opt cwd w :
  exists sizes, getSizes lib opt cwd w = (Ok sizes, w).
Proof. eexists. reflexivity. Qed.

(** X20. When the filter keeps every file [glob] found, names and sizes
    line up: a file whose de-hashed name is not [__proto__] gives that
    name its own size, or [null] when its compression failed, unless a
    later file has the same de-hashed name. *)
Lemma getSizes_aligned lib opt cwd w pre file post :
  let files := glob lib (Opt.pattern opt) cwd (Opt.exclude opt) in
  filterFiles lib opt files = files ->
  files = pre ++ file :: post ->
  Opt.stripHash opt file <> "__proto__" ->
  (forall later, In later post -> Opt.stripHash opt later <> Opt.stripHash opt file) ->
  exists sizes,
    getSizes lib opt cwd w = (Ok sizes, w)
    /\ JS.get sizes (Opt.stripHash opt file)
       = Some (catch_null (compressionSize_file lib opt (path_join lib cwd file))).
Proof.
  cbv zeta. intros Hkept Hfiles Hname Hlater. eexists. split; [reflexivity|].
  rewrite Hkept. rewrite (toMap_pairs (Opt.stripHash opt)), (settled_get _ _ _ _ Hname).
  rewrite Hfiles, map_app. simpl.
  apply assign_get_last. rewrite map_map, in_map_iff. simpl.
  intros (later & Heq & Hin). now apply (Hlater later Hin).
Qed.

(** X21. The gzip-only copy pairs every file whose de-hashed name is not
    [__proto__] with its own size, whatever a filter would say. *)
Lemma gzip_getSizes_pairs lib opt cwd w pre file post :
  glob lib (Opt.pattern opt) cwd (Opt.exclude opt) = pre ++ file :: post ->
  Opt.stripHash opt file <> "__proto__" ->
  (forall later, In later post -> Opt.stripHash opt later <> Opt.stripHash opt file) ->
  exists sizes,
    GzipCore.getSizes lib opt cwd w = (Ok sizes, w)
    /\ JS.get sizes (Opt.stripHash opt file)
       = Some (catch_null (gzipSize_file lib (path_join lib cwd file))).
Proof.
  intros Hfiles Hname Hlater. eexists. split; [reflexivity|].
  rewrite (toMap_pairs (Opt.stripHash opt)), (settled_get _ _ _ _ Hname).
  rewrite Hfiles, map_app. simpl.
  apply assign_get_last. rewrite map_map, in_map_iff. simpl.
  intros (later & Heq & Hin). now apply (Hlater later Hin).
Qed.

(** C8. The disk-scan fallback at a scan whose filter drops a file: [glob]
    finds "(x.map)" (10 bytes compressed) and "main.js" (20 bytes), the
    filter keeps only "main.js", and no compression fails.  The sizes are
    computed for the kept files and zipped with the names of all files, so
    the baseline gives "(x.map)" the size of "main.js" and leaves
    "main.js" without a size. *)
Theorem getSizes_filter_misaligns :
  let lib := Demo.scan_lib in
  let opt := Demo.scan_opt in
  let w := Demo.world_with [] in
  glob lib (Opt.pattern opt) "dist" (Opt.exclude opt) = ["(x.map)"; "main.js"]
  /\ filterFiles lib opt ["(x.map)"; "main.js"] = ["main.js"]
  /\ compressionSize_file lib opt (path_join lib "dist" "(x.map)") = Ok 10
  /\ compressionSize_file lib opt (path_join lib "dist" "main.js") = Ok 20
  /\ Opt.stripHash opt "(x.map)" = "(x.map)"
  /\ Opt.stripHash opt "main.js" = "main.js"
  /\ getSizes lib opt "dist" w
     = (Ok [("(x.map)", JS.Num 20); ("main.js", JS.Undefined)], w)
  /\ load lib opt "dist" w
     = (Ok [("(x.map)", JS.Num 20); ("main.js", JS.Undefined)], w).
Proof. cbv zeta. repeat split; vm_compute; reflexivity. Qed.

(** ** Instances *)



Lemma reconcile_union_witness :
  let before := [("a.js", JS.Num 100); ("b.js", JS.Num 200)] in
  let after := [("a.js", JS.Num 150); ("c.js", JS.Num 50)] in
  JS.wf before /\ JS.wf after
  /\ map Item.name (reconcile Demo.lib Demo.production before after)
     = ["a.js"; "b.js"; "c.js"].
Proof.
  cbv zeta.
  assert (Hb : JS.wf [("a.js", JS.Num 100); ("b.js", JS.Num 200)])
    by (unfold JS.wf; simpl; repeat constructor; simpl; intuition discriminate).
  assert (Ha : JS.wf [("a.js", JS.Num 150); ("c.js", JS.Num 50)])
    by (unfold JS.wf; simpl; repeat constructor; simpl; intuition discriminate).
  split; [exact Hb|]. split; [exact Ha|].
  exact (proj1 (reconcile_union Demo.lib Demo.production _ _ Hb Ha)).
Defined.



Lemma load_latest_witness :
  let w := Demo.world_with [Demo.stored 10 0] in
  disk w !! Opt.filepath Demo.production = Some (Json (JArray [Demo.stored 10 0]))
  /\ [Demo.stored 10 0] <> []
  /\ load Demo.lib Demo.production "dist" w = (Ok [("a.js", JS.Num 10)], w).
Proof.
  cbv zeta.
  assert (Hfile : disk (Demo.world_with [Demo.stored 10 0]) !! Opt.filepath Demo.production
                  = Some (Json (JArray [Demo.stored 10 0]))) by (vm_compute; reflexivity).
  assert (Hne : [Demo.stored 10 0] <> []) by discriminate.
  split; [exact Hfile|]. split; [exact Hne|].
  destruct (load_latest Demo.lib Demo.production "dist" _ _ Hfile Hne)
    as (latest & Hin & _ & Hload & _).
  destruct Hin as [<-|[]]. exact Hload.
Defined.

(** The claim of C4 at a snapshot that names a file twice, and names one
    [__proto__]: the first entry of "a.js" has a non-zero size that its
    name does not read, and the entry of [__proto__] is not stored. *)
Lemma load_latest_repeated :
  let files :=
    [ {| FileStat.filename := "a.js"; FileStat.previous := 0;
         FileStat.size := 5; FileStat.diff := 5 |};
      {| FileStat.filename := "a.js"; FileStat.previous := 5;
         FileStat.size := 7; FileStat.diff := 2 |};
      {| FileStat.filename := "__proto__"; FileStat.previous := 0;
         FileStat.size := 3; FileStat.diff := 3 |} ] in
  let w := Demo.world_with [ {| Stats.timestamp := 1000; Stats.files := files |} ] in
  exists baseline,
    load Demo.lib Demo.production "dist" w = (Ok baseline, w)
    /\ JS.get baseline "a.js" = Some (JS.Num 7)
    /\ JS.get baseline "__proto__" = None
    /\ ~ (forall file, In file files -> FileStat.size file <> 0 ->
           JS.get baseline (FileStat.filename file) = Some (JS.Num (FileStat.size file))).
Proof.
  cbv zeta. eexists. split; [vm_compute; reflexivity|].
  split; [reflexivity|]. split; [reflexivity|].
  intros Hall. specialize (Hall _ (or_introl eq_refl)). simpl in Hall.
  assert (Hsize : 5 <> 0) by discriminate. specialize (Hall Hsize). discriminate Hall.
Qed.



(** * Further properties of the code *)

(** ** util.js: [dedupe] *)

Lemma first_seen_sublist seen l : sublist (first_seen seen l) l.
Proof.
  revert seen. induction l as [|x l IH]; intros seen; simpl; [constructor|].
  destruct (existsb (String.eqb x) seen); constructor; apply IH.
Qed.

Lemma first_seen_same l : List.NoDup l -> first_seen [] l = l.
Proof.
  intros Hnd. rewrite (first_seen_distinct [] l Hnd). simpl.
  induction l as [|x l IH]; simpl; [reflexivity|]. f_equal. apply IH.
  now inversion Hnd.
Qed.

Lemma first_seen_after seen1 seen2 l :
  first_seen (seen1 ++ seen2) l
  = List.filter (fun x => negb (existsb (String.eqb x) seen1)) (first_seen seen2 l).
Proof.
  revert seen2. induction l as [|x l IH]; intros seen2; simpl; [reflexivity|].
  rewrite existsb_app, <- app_assoc, IH.
  destruct (existsb (String.eqb x) seen2); simpl.
  - now rewrite orb_true_r.
  - rewrite orb_false_r. now destruct (existsb (String.eqb x) seen1).
Qed.

Lemma first_seen_drop seen l :
  first_seen seen l
  = List.filter (fun x => negb (existsb (String.eqb x) seen)) (first_seen [] l).
Proof. rewrite <- (first_seen_after seen [] l). now rewrite app_nil_r. Qed.

(** X1. [arr.filter(dedupe)] keeps the first occurrence of each element:
    the result has no repeats, holds the elements of [arr] and no other,
    in the order of [arr]; filtering again changes nothing, and an array
    without repeats is returned as it is.  The occurrence kept is the
    first: an element appended to [arr] is dropped when [arr] has it and
    is appended to the result otherwise, and the result for [arr] followed
    by more elements starts with the result for [arr]. *)
Theorem dedupe_filter (arr more : list string) (last : string) :
  let unique := JS.filter dedupe arr in
  List.NoDup unique
  /\ (forall x, In x unique <-> In x arr)
  /\ sublist unique arr
  /\ JS.filter dedupe unique = unique
  /\ (List.NoDup arr -> unique = arr)
  /\ JS.filter dedupe (arr ++ [last])
     = (if existsb (String.eqb last) arr then unique else unique ++ [last])
  /\ JS.filter dedupe (arr ++ more)
     = unique ++ List.filter (fun x => negb (existsb (String.eqb x) arr))
                             (JS.filter dedupe more).
Proof.
  cbv zeta. rewrite !filter_dedupe. repeat split.
  - apply first_seen_NoDup.
  - intros Hin. now apply first_seen_In in Hin.
  - intros Hin. apply first_seen_In. simpl. tauto.
  - apply first_seen_sublist.
  - apply first_seen_same, first_seen_NoDup.
  - apply first_seen_same.
  - rewrite first_seen_app. simpl. destruct (existsb (String.eqb last) arr).
    + now rewrite app_nil_r.
    + reflexivity.
  - rewrite first_seen_app. simpl. f_equal. apply first_seen_drop.
Qed.

(** ** util.js: [toMap] *)

Lemma null_or_numbers (values : list JS.value) :
  In JS.Null values \/ Forall (fun v => JS.is_null v = false) values.
Proof.
  induction values as [|v values [Hin|Hall]].
  - right. constructor.
  - left. now right.
  - destruct v; [right; now constructor|left; now left|right; now constructor].
Qed.

Lemma entries_from_app i names1 names2 values :
  entries_from i (names1 ++ names2) values
  = entries_from i names1 values ++ entries_from (i + length names1) names2 values.
Proof.
  revert i. induction names1 as [|name names1 IH]; intros i; simpl.
  - now rewrite Nat.add_0_r.
  - rewrite IH. do 3 f_equal. lia.
Qed.

(** X2. [toMap(names, values)] reads, at a name other than [__proto__],
    the value at the index of the last occurrence of that name,
    [undefined] when [values] is too short to have that index; its keys
    are the names other than [__proto__], each once, and [__proto__] is a
    key only if [null] is among the values. *)
Theorem toMap_last_index (pre post : list string) (name : string) (values : list JS.value) :
  ~ In name post ->
  name <> "__proto__" ->
  let map := toMap (pre ++ name :: post) values in
  JS.get map name = Some (nth (length pre) values JS.Undefined)
  /\ (length values <= length pre -> JS.get map name = Some JS.Undefined)%nat
  /\ (forall k, k <> "__proto__" -> In k (JS.keys map) <-> In k (pre ++ name :: post))
  /\ (In "__proto__" (JS.keys map) -> In JS.Null values)
  /\ List.NoDup (JS.keys map).
Proof.
  intros Hlast Hname. cbv zeta.
  assert (Hget : JS.get (toMap (pre ++ name :: post) values) name
                 = Some (nth (length pre) values JS.Undefined)).
  { rewrite (toMap_get _ _ _ Hname), entries_from_app. simpl.
    apply assign_get_last. now rewrite entries_from_names. }
  split; [exact Hget|]. split; [|split; [|split]].
  - intros Hshort. rewrite Hget. f_equal. now apply nth_overflow.
  - intros k Hk. now apply toMap_keys.
  - intros Hin. destruct (null_or_numbers values) as [Hnull|Hnumbers]; [assumption|].
    exfalso. now apply (toMap_numbers (pre ++ name :: post) values Hnumbers).
  - apply toMap_wf.
Qed.

Lemma keys_set_plain {V : Type} (o : JS.object V) (k : string) (v : V) :
  JS.array_index k = None ->
  JS.keys (JS.set k v o) = if JS.has o k then JS.keys o else JS.keys o ++ [k].
Proof.
  intros Hplain. unfold JS.set. rewrite Hplain. destruct (JS.has o k).
  - apply keys_update.
  - now rewrite keys_app.
Qed.

(** Only the elements of [seen] matter, not their order or number. *)
Lemma first_seen_ext seen1 seen2 l :
  (forall x, In x seen1 <-> In x seen2) -> first_seen seen1 l = first_seen seen2 l.
Proof.
  revert seen1 seen2. induction l as [|y l IH]; intros seen1 seen2 Hsame; simpl.
  - reflexivity.
  - assert (Hmem : existsb (String.eqb y) seen1 = existsb (String.eqb y) seen2).
    { apply eq_true_iff_eq. rewrite !mem_In. apply Hsame. }
    rewrite Hmem, (IH (seen1 ++ [y]) (seen2 ++ [y])); [reflexivity|].
    intros x. rewrite !in_app_iff, Hsame. reflexivity.
Qed.

Lemma assign_keys_plain {V : Type} (ps : list (string * V)) (acc : JS.object V) :
  Forall (fun name => JS.array_index name = None) (map fst ps) ->
  JS.keys (assign ps acc) = JS.keys acc ++ first_seen (JS.keys acc) (map fst ps).
Proof.
  revert acc. induction ps as [|[k v] ps IH]; intros acc Hplain; simpl.
  - now rewrite app_nil_r.
  - inversion Hplain as [|? ? Hk Hrest]; subst. rewrite (IH _ Hrest).
    rewrite (keys_set_plain acc k v Hk). unfold JS.has. simpl.
    destruct (existsb (String.eqb k) (JS.keys acc)) eqn:Hmem.
    + f_equal. apply first_seen_ext. intros x. rewrite in_app_iff. simpl.
      apply mem_In in Hmem. intuition congruence.
    + now rewrite <- app_assoc.
Qed.

(** X3. Without [null] among the values, the keys of
    [toMap(names, values)] are the distinct names other than [__proto__];
    when no name is an array index they come in the order of their first
    occurrence, as [filter(dedupe)] lists them. *)
Theorem toMap_keys_order (names : list string) (values : list JS.value) :
  ~ In JS.Null values ->
  let stored := List.filter (fun name => negb (String.eqb name "__proto__")) names in
  Permutation (JS.keys (toMap names values)) (JS.filter dedupe stored)
  /\ (List.Forall (fun name => JS.array_index name = None) names ->
      JS.keys (toMap names values) = JS.filter dedupe stored).
Proof.
  intros Hnull. cbv zeta.
  destruct (null_or_numbers values) as [Hin|Hnumbers]; [contradiction|].
  assert (Hstored : map fst (settled true (entries_from 0 names values))
                    = List.filter (fun name => negb (String.eqb name "__proto__")) names).
  { rewrite (settled_numbers _ (entries_from_numbers 0 names values Hnumbers)).
    rewrite <- (entries_from_names 0 names values) at 2.
    generalize (entries_from 0 names values). intros es.
    induction es as [|[k v] es IH]; simpl; [reflexivity|].
    destruct (String.eqb k "__proto__"); simpl; now rewrite IH. }
  rewrite filter_dedupe. split.
  - apply Stdlib.Sorting.Permutation.NoDup_Permutation.
    + apply toMap_wf.
    + apply first_seen_NoDup.
    + intros k. rewrite toMap_assign, assign_keys, Hstored, first_seen_In. simpl. tauto.
  - intros Hplain. rewrite toMap_assign, assign_keys_plain.
    + now rewrite Hstored.
    + rewrite Hstored. apply List.Forall_forall. intros name Hin.
      apply filter_In in Hin as [Hin _].
      rewrite List.Forall_forall in Hplain. now apply Hplain.
Qed.

(** ** util.js: [getStripHashedFileSize] *)

Section SummingMap.
Variable stripHash : string -> string.
Implicit Types (o acc : JS.object Z) (k : string).

(** Over a map with distinct keys, the keys and their reads are the entries. *)
Lemma reduce_add_stripped o i (es : JS.object Z) acc :
  (forall e, In e es -> JS.get o (fst e) = Some (snd e)) ->
  JS.reduce_from
    (fun acc currentValue (_ : nat) =>
       let stripedName := stripHash currentValue in
       match JS.get o currentValue with
       | Some size =>
           match JS.get acc stripedName with
           | Some sum =>
               if negb (sum =? 0) then JS.set stripedName (sum + size) acc
               else JS.set stripedName size acc
           | None => JS.set stripedName size acc
           end
       | None => acc
       end) i (JS.keys es) acc
  = fold_left (add_stripped stripHash) es acc.
Proof.
  revert i acc. induction es as [|[k v] es IH]; intros i acc Hget; simpl.
  - reflexivity.
  - pose proof (Hget (k, v) (or_introl eq_refl)) as Hk. simpl in Hk. rewrite Hk.
    cbv zeta. rewrite IH by (intros e He; apply Hget; now right). reflexivity.
Qed.

Lemma wf_get_entry o e : JS.wf o -> In e o -> JS.get o (fst e) = Some (snd e).
Proof.
  unfold JS.wf. induction o as [|[k v] o IH]; simpl; [tauto|].
  intros Hnd [<-|Hin]; simpl.
  - now rewrite String.eqb_refl.
  - inversion Hnd as [|? ? Hnin Hnd']; subst.
    destruct (String.eqb_spec k (fst e)) as [->|Hne]; [|now apply IH].
    exfalso. apply Hnin. now apply in_map.
Qed.

Lemma summed_fold o :
  JS.wf o -> summed stripHash o = fold_left (add_stripped stripHash) o [].
Proof.
  intros Hwf. apply reduce_add_stripped. intros e. now apply wf_get_entry.
Qed.

(** A step adds the size to what the de-hashed name read, whether that was
    nothing, zero or a sum. *)
Lemma add_stripped_get acc e k :
  JS.get (add_stripped stripHash acc e) k
  = if String.eqb (stripHash (fst e)) k then Some (or_none (JS.get acc k) + snd e)
    else JS.get acc k.
Proof.
  unfold add_stripped. destruct (String.eqb_spec (stripHash (fst e)) k) as [<-|Hne].
  - destruct (JS.get acc (stripHash (fst e))) as [sum|]; simpl.
    + destruct (Z.eqb_spec sum 0) as [->|]; simpl; now rewrite get_set_eq.
    + now rewrite get_set_eq.
  - destruct (JS.get acc (stripHash (fst e))) as [sum|];
      [destruct (negb (sum =? 0))|]; rewrite get_set_ne; congruence.
Qed.

Lemma sum_stripped_none (es : JS.object Z) k :
  existsb (fun e => String.eqb (stripHash (fst e)) k) es = false ->
  sum_stripped stripHash k es = 0.
Proof.
  unfold sum_stripped, total. induction es as [|e es IH]; simpl; [reflexivity|].
  destruct (String.eqb (stripHash (fst e)) k); simpl; [discriminate | exact IH].
Qed.

Lemma fold_add_stripped_get (es : JS.object Z) acc k :
  JS.get (fold_left (add_stripped stripHash) es acc) k
  = if existsb (fun e => String.eqb (stripHash (fst e)) k) es
    then Some (or_none (JS.get acc k) + sum_stripped stripHash k es)
    else JS.get acc k.
Proof.
  revert acc. induction es as [|e es IH]; intros acc; simpl; [reflexivity|].
  rewrite IH, add_stripped_get.
  destruct (String.eqb (stripHash (fst e)) k) eqn:Hhere; simpl.
  - assert (Hsum : sum_stripped stripHash k (e :: es) = snd e + sum_stripped stripHash k es).
    { unfold sum_stripped, total. simpl. now rewrite Hhere. }
    rewrite Hsum. destruct (existsb _ es) eqn:Hex; simpl.
    + f_equal. lia.
    + rewrite (sum_stripped_none es k Hex). f_equal. lia.
  - unfold sum_stripped, total. simpl. now rewrite Hhere.
Qed.

Lemma total_app o1 o2 : total (o1 ++ o2) = total o1 + total o2.
Proof.
  unfold total. rewrite map_app, fold_right_app.
  induction (map snd o1) as [|x l IH]; simpl; [reflexivity|]. rewrite IH. lia.
Qed.

Lemma total_update o k (v : Z) :
  total (JS.update k v o) = total o - or_none (JS.get o k) + (if JS.has o k then v else 0).
Proof.
  unfold JS.has. induction o as [|[k' v'] o IH]; simpl; [reflexivity|].
  unfold total in *. simpl. rewrite (String.eqb_sym k k').
  destruct (String.eqb k' k); simpl; [lia|]. rewrite IH. lia.
Qed.

(** An assignment replaces what the key read by what is assigned. *)
Lemma total_set o k (v : Z) : total (JS.set k v o) = total o - or_none (JS.get o k) + v.
Proof.
  destruct (JS.has o k) eqn:Hhas.
  - unfold JS.set. rewrite Hhas, total_update, Hhas. reflexivity.
  - destruct (set_new_split o k v Hhas) as (o1 & o2 & Ho & ->).
    apply has_false, get_None in Hhas. rewrite Hhas, Ho, !total_app. simpl.
    unfold total. simpl. lia.
Qed.

Lemma total_add_stripped acc e : total (add_stripped stripHash acc e) = total acc + snd e.
Proof.
  unfold add_stripped. destruct (JS.get acc (stripHash (fst e))) as [sum|] eqn:Hget.
  - destruct (Z.eqb_spec sum 0) as [->|]; simpl; rewrite total_set, Hget; simpl; lia.
  - rewrite total_set, Hget. simpl. lia.
Qed.

Lemma summed_sums o :
  JS.wf o ->
  (forall name, In name (JS.keys o) ->
     JS.get (summed stripHash o) (stripHash name)
     = Some (sum_stripped stripHash (stripHash name) o))
  /\ (forall k, (forall name, In name (JS.keys o) -> stripHash name <> k) ->
        JS.get (summed stripHash o) k = None)
  /\ JS.wf (summed stripHash o).
Proof.
  intros Hwf. rewrite (summed_fold o Hwf). split; [|split].
  - intros name Hin. rewrite fold_add_stripped_get.
    assert (Hex : existsb (fun e => String.eqb (stripHash (fst e)) (stripHash name)) o = true).
    { apply in_map_iff in Hin as (e & <- & He). apply existsb_exists.
      exists e. split; [assumption | apply String.eqb_refl]. }
    rewrite Hex. simpl. reflexivity.
  - intros k Hnone. rewrite fold_add_stripped_get.
    destruct (existsb _ o) eqn:Hex; [|reflexivity].
    apply existsb_exists in Hex as (e & He & Heq). apply String.eqb_eq in Heq.
    exfalso. apply (Hnone (fst e)); [now apply in_map | assumption].
  - clear Hwf. assert (Hempty : JS.wf (@nil (string * Z))) by constructor.
    revert Hempty. generalize (@nil (string * Z)) as acc.
    induction o as [|e o IH]; intros acc Hacc; simpl; [assumption|].
    apply IH. unfold add_stripped.
    destruct (JS.get acc (stripHash (fst e))) as [sum|];
      [destruct (negb (sum =? 0))|]; now apply wf_set.
Qed.

Lemma summed_total o : JS.wf o -> total (summed stripHash o) = total o.
Proof.
  intros Hwf. rewrite (summed_fold o Hwf).
  enough (Hacc : forall acc, total (fold_left (add_stripped stripHash) o acc)
                             = total acc + total o) by (rewrite Hacc; reflexivity).
  clear Hwf. induction o as [|e o IH]; intros acc; simpl.
  - change (total []) with 0. lia.
  - rewrite IH, total_add_stripped.
    change (total (e :: o)) with (snd e + total o). lia.
Qed.

(** *** Tables of numbers as tables of sums *)

Lemma keys_totals o : JS.keys (totals o) = JS.keys o.
Proof. unfold totals, JS.keys. rewrite map_map. reflexivity. Qed.

Lemma get_totals o k : JS.get (totals o) k = option_map Total (JS.get o k).
Proof.
  induction o as [|[k' v] o IH]; simpl; [reflexivity|].
  now destruct (String.eqb k' k).
Qed.

Lemma update_totals o k (v : Z) :
  JS.update k (Total v) (totals o) = totals (JS.update k v o).
Proof.
  induction o as [|[k' v'] o IH]; simpl; [reflexivity|].
  destruct (String.eqb k' k); simpl; [reflexivity|]. now rewrite IH.
Qed.

Lemma insert_index_totals o n k (v : Z) :
  JS.insert_index n k (Total v) (totals o) = totals (JS.insert_index n k v o).
Proof.
  induction o as [|[k' v'] o IH]; simpl; [reflexivity|].
  destruct (JS.array_index k') as [n'|]; [|reflexivity].
  destruct (n' <? n)%N; simpl; [|reflexivity]. now rewrite IH.
Qed.

Lemma set_totals o k (v : Z) : JS.set k (Total v) (totals o) = totals (JS.set k v o).
Proof.
  unfold JS.set, JS.has. rewrite keys_totals.
  destruct (existsb (String.eqb k) (JS.keys o)); [apply update_totals|].
  destruct (JS.array_index k) as [n|]; [apply insert_index_totals|].
  unfold totals. now rewrite map_app.
Qed.

Lemma sum_of_totals o : sum_of (totals o) = Some (total o).
Proof.
  induction o as [|[k v] o IH]; simpl; [reflexivity|].
  rewrite IH. reflexivity.
Qed.

Lemma inherited_proto k : JS.inherited k = false -> k <> "__proto__".
Proof. intros Hplain ->. discriminate. Qed.

(** While no de-hashed name is a member of [Object.prototype], every read
    of the accumulator finds a number or nothing, and every sum is one. *)
Lemma getStripHashedFileSize_summed o :
  (forall name, In name (JS.keys o) -> JS.inherited (stripHash name) = false) ->
  getStripHashedFileSize stripHash o = totals (summed stripHash o).
Proof.
  intros Hplain. unfold getStripHashedFileSize, getStripHashedFileSize_object, summed, JS.reduce.
  change (@JS.empty amount) with {| JS.own := totals []; JS.prototype := true |}.
  generalize (@nil (string * Z)) as acc. generalize 0%nat as i.
  revert Hplain. generalize (JS.keys o) as names.
  induction names as [|name names IH]; intros Hplain i acc; simpl; [reflexivity|].
  assert (Hname : JS.inherited (stripHash name) = false) by (apply Hplain; now left).
  assert (Hput : forall v : Z,
             JS.put (fun _ : amount => false) (stripHash name) (Total v)
                    {| JS.own := totals acc; JS.prototype := true |}
             = {| JS.own := totals (JS.set (stripHash name) v acc); JS.prototype := true |}).
  { intros v. unfold JS.put. simpl.
    destruct (String.eqb_spec (stripHash name) "__proto__") as [Heq|_].
    - now apply inherited_proto in Hname.
    - simpl. now rewrite set_totals. }
  destruct (JS.get o name) as [size|]; [|apply IH; intros n Hn; apply Hplain; now right].
  unfold JS.read. simpl. rewrite get_totals, Hname.
  destruct (JS.get acc (stripHash name)) as [n|]; simpl.
  - destruct (negb (n =? 0)); rewrite Hput; apply IH; intros n' Hn; apply Hplain; now right.
  - rewrite Hput. apply IH. intros n' Hn. apply Hplain. now right.
Qed.

(** X4. [getStripHashedFileSize] adds up the sizes of the files that
    de-hash to one name: when no de-hashed name is a member of
    [Object.prototype], a de-hashed name reads the sum of the sizes of
    all keys that de-hash to it, and nothing else is a key. *)
Theorem getStripHashedFileSize_sums o :
  JS.wf o ->
  (forall name, In name (JS.keys o) -> JS.inherited (stripHash name) = false) ->
  (forall name, In name (JS.keys o) ->
     JS.get (getStripHashedFileSize stripHash o) (stripHash name)
     = Some (Total (sum_stripped stripHash (stripHash name) o)))
  /\ (forall k, (forall name, In name (JS.keys o) -> stripHash name <> k) ->
        JS.get (getStripHashedFileSize stripHash o) k = None)
  /\ JS.wf (getStripHashedFileSize stripHash o).
Proof.
  intros Hwf Hplain. rewrite (getStripHashedFileSize_summed o Hplain).
  destruct (summed_sums o Hwf) as (Hsum & Hnone & Hkeys). split; [|split].
  - intros name Hin. now rewrite get_totals, (Hsum name Hin).
  - intros k Hk. now rewrite get_totals, (Hnone k Hk).
  - unfold JS.wf. now rewrite keys_totals.
Qed.

(** X5. [getStripHashedFileSize] keeps the total: when no de-hashed name
    is a member of [Object.prototype], every entry of the result is a
    number, and they add up to the sizes of the map it was given. *)
Theorem getStripHashedFileSize_total o :
  JS.wf o ->
  (forall name, In name (JS.keys o) -> JS.inherited (stripHash name) = false) ->
  sum_of (getStripHashedFileSize stripHash o) = Some (total o).
Proof.
  intros Hwf Hplain. rewrite (getStripHashedFileSize_summed o Hplain), sum_of_totals.
  now rewrite (summed_total o Hwf).
Qed.

End SummingMap.

Lemma sum_stripped_app stripHash k (o1 o2 : JS.object Z) :
  sum_stripped stripHash k (o1 ++ o2)
  = sum_stripped stripHash k o1 + sum_stripped stripHash k o2.
Proof. unfold sum_stripped. now rewrite List.filter_app, total_app. Qed.

Lemma no_match stripHash k (es : JS.object Z) :
  (forall e, In e es -> stripHash (fst e) <> k) ->
  existsb (fun e => String.eqb (stripHash (fst e)) k) es = false.
Proof.
  intros Hnone. destruct (existsb _ es) eqn:Hex; [|reflexivity].
  apply existsb_exists in Hex as (e & He & Heq). apply String.eqb_eq in Heq.
  now destruct (Hnone e He).
Qed.

Lemma summed_toMap (stripHash : string -> string) (o : JS.object Z) :
  JS.wf o ->
  (forall a b, In a (JS.keys o) -> In b (JS.keys o) -> stripHash a = stripHash b -> a = b) ->
  (forall name, In name (JS.keys o) -> stripHash name <> "__proto__") ->
  forall k,
    option_map JS.Num (JS.get (summed stripHash o) k)
    = JS.get (toMap (map stripHash (JS.keys o)) (map (fun e => JS.Num (snd e)) o)) k.
Proof.
  intros Hwf Hinj Hplain k. rewrite (summed_fold stripHash o Hwf).
  rewrite fold_add_stripped_get. unfold JS.keys. rewrite map_map.
  rewrite (toMap_pairs (fun e => stripHash (fst e)) (fun e => JS.Num (snd e)) o).
  rewrite settled_plain.
  2:{ rewrite map_map. simpl. intros Hin. apply in_map_iff in Hin as (e & Heq & He).
      apply (Hplain (fst e)); [now apply in_map | assumption]. }
  destruct (existsb (fun e => String.eqb (stripHash (fst e)) k) o) eqn:Hex.
  - apply existsb_exists in Hex as (e & He & Heq). apply String.eqb_eq in Heq. subst k.
    destruct (in_split _ _ He) as (pre & post & Ho).
    assert (Hother : forall e', In e' (pre ++ post) -> stripHash (fst e') <> stripHash (fst e)).
    { intros e' He' Hsame. unfold JS.wf, JS.keys in Hwf. rewrite Ho, map_app in Hwf.
      simpl in Hwf. apply NoDup_remove_2 in Hwf. apply Hwf.
      rewrite <- map_app. rewrite <- (Hinj (fst e') (fst e)); [now apply in_map| | |assumption].
      - apply in_map. rewrite Ho. apply in_app_iff in He' as [?|?];
          apply in_app_iff; [now left | now right; right].
      - now apply in_map. }
    simpl. rewrite Ho at 1. rewrite sum_stripped_app.
    change (e :: post) with ([e] ++ post). rewrite sum_stripped_app.
    rewrite (sum_stripped_none stripHash pre), (sum_stripped_none stripHash post).
    + unfold sum_stripped, total. simpl. rewrite String.eqb_refl. simpl.
      rewrite Ho, map_app. simpl. symmetry.
      replace (snd e + 0 + 0) with (snd e) by lia. replace (0 + snd e) with (snd e) by lia.
      apply assign_get_last. rewrite map_map, in_map_iff. simpl.
      intros (e' & Hsame & He'). apply (Hother e'); [|assumption].
      apply in_app_iff. now right.
    + apply no_match. intros e' He'. apply Hother, in_app_iff. now right.
    + apply no_match. intros e' He'. apply Hother, in_app_iff. now left.
  - simpl. symmetry. apply get_None. intros Hin.
    apply assign_keys in Hin as [Hin|[]]. rewrite map_map in Hin. simpl in Hin.
    apply in_map_iff in Hin as (e & Heq & He).
    assert (Hyes : existsb (fun e => String.eqb (stripHash (fst e)) k) o = true).
    { apply existsb_exists. exists e. split; [assumption | now apply String.eqb_eq]. }
    congruence.
Qed.

(** X6. Without collisions the two ways of building the de-hashed map
    agree: when no two keys of the map de-hash to the same name, and no
    de-hashed name is a member of [Object.prototype],
    [getStripHashedFileSize] reads a number at a name exactly when
    [toMap] of the de-hashed keys and the sizes reads that number there,
    and nothing exactly when [toMap] reads nothing. *)
Theorem getStripHashedFileSize_toMap (stripHash : string -> string) (o : JS.object Z) :
  JS.wf o ->
  (forall a b, In a (JS.keys o) -> In b (JS.keys o) -> stripHash a = stripHash b -> a = b) ->
  (forall name, In name (JS.keys o) -> JS.inherited (stripHash name) = false) ->
  forall k,
    let sums := getStripHashedFileSize stripHash o in
    let sizes := toMap (map stripHash (JS.keys o)) (map (fun e => JS.Num (snd e)) o) in
    (forall n, JS.get sums k = Some (Total n) <-> JS.get sizes k = Some (JS.Num n))
    /\ (JS.get sums k = None <-> JS.get sizes k = None)
    /\ JS.get sums k <> Some Text.
Proof.
  intros Hwf Hinj Hplain k. cbv zeta.
  rewrite (getStripHashedFileSize_summed stripHash o Hplain), get_totals.
  rewrite <- (summed_toMap stripHash o Hwf Hinj
                (fun name Hin => inherited_proto _ (Hplain name Hin)) k).
  destruct (JS.get (summed stripHash o) k) as [m|]; simpl.
  - split; [|split]; [|split; discriminate|discriminate].
    intros n. split; intros [= ->]; reflexivity.
  - split; [|split]; [|tauto|discriminate].
    intros n. split; discriminate.
Qed.

(** ** size-plugin-core.js: [filterFiles] *)

(** X7. [filterFiles] keeps exactly the files that match the pattern and
    that a non-empty exclude pattern does not match, in their order;
    filtering its result again changes nothing. *)
Theorem filterFiles_kept (lib : library) (opt : Opt.t) (files : list string) :
  let kept := filterFiles lib opt files in
  (forall file,
     In file kept <->
     In file files
     /\ minimatch_filter lib (Opt.pattern opt) file = true
     /\ (forall e, Opt.exclude opt = Some e -> e <> "" -> minimatch_filter lib e file = false))
  /\ sublist kept files
  /\ filterFiles lib opt kept = kept.
Proof.
  cbv zeta. unfold filterFiles.
  set (test := fun file => _ && negb _).
  assert (Htest : forall file, test file = true <->
            minimatch_filter lib (Opt.pattern opt) file = true
            /\ (forall e, Opt.exclude opt = Some e -> e <> "" ->
                          minimatch_filter lib e file = false)).
  { intros file. subst test. cbv beta. rewrite andb_true_iff, negb_true_iff.
    destruct (Opt.exclude opt) as [e|].
    - destruct (String.eqb_spec e "") as [->|Hne].
      + split; [|tauto]. intros [Hm _]. split; [assumption|]. intros e' [= <-]. tauto.
      + split.
        * intros [Hm Hx]. split; [assumption|]. now intros e' [= <-] _.
        * intros [Hm Hx]. split; [assumption|]. now apply Hx.
    - split; [|tauto]. intros [Hm _]. split; [assumption|]. discriminate. }
  split; [|split].
  - intros file. rewrite filter_In, Htest. tauto.
  - clear Htest. induction files as [|file files IH]; simpl; [constructor|].
    destruct (test file); now constructor.
  - clear Htest. induction files as [|file files IH]; simpl; [reflexivity|].
    destruct (test file) eqn:Hfile; simpl; [rewrite Hfile|]; now rewrite ?IH.
Qed.

(** ** size-plugin-core.js: the report text *)

Lemma length_append (a b : string) :
  String.length (a ++ b) = (String.length a + String.length b)%nat.
Proof.
  induction a as [|c a IH]; [reflexivity|].
  change (S (String.length (a ++ b)) = S (String.length a + String.length b)).
  now f_equal.
Qed.



Lemma length_spaces (n : nat) : String.length (spaces n) = n.
Proof. induction n as [|n IH]; simpl; [reflexivity | now rewrite IH]. Qed.

Lemma width_of_bound (files : list string) (name : string) :
  In name files -> (String.length name <= width_of files)%nat.
Proof.
  unfold width_of. induction files as [|file files IH]; simpl; [tauto|].
  intros [->|Hin]; [lia|]. specialize (IH Hin). lia.
Qed.

(** X8. Alignment: in one report every record's message is its name,
    padded on the left with spaces and followed by the separator, and all
    messages have the same length, the longest name's plus one space and
    the separator. *)
Theorem reconcile_aligned (lib : library) (opt : Opt.t) (before after : JS.object JS.value) :
  let width := width_of (unique_files before after) in
  Forall
    (fun item =>
       Item.msg item
       = (spaces (width - String.length (Item.name item) + 1)
          ++ Item.name item ++ " ⏤  ")%string
       /\ (String.length (Item.name item) <= width)%nat
       /\ String.length (Item.msg item) = (width + 1 + String.length " ⏤  ")%nat)
    (reconcile lib opt before after).
Proof.
  cbv zeta. rewrite reconcile_items. apply List.Forall_forall. intros item Hin.
  apply in_map_iff in Hin as (name & <- & Hname).
  apply width_of_bound in Hname.
  assert (Hmsg : Item.msg (item_of lib (width_of (unique_files before after)) before after name)
                 = (spaces (width_of (unique_files before after) - String.length name + 1)
                    ++ name ++ " ⏤  ")%string).
  { unfold item_of. cbv zeta. now destruct (texts lib _ _ _). }
  destruct (item_of_fields lib (width_of (unique_files before after)) before after name)
    as (Hn & _).
  rewrite Hn, Hmsg. split; [reflexivity|]. split; [assumption|].
  rewrite !length_append, length_spaces. lia.
Qed.





(** ** size-plugin-core.js: rejections and the network *)

Lemma Promise_all_rejects {A : Type} (promises : list (result A)) (e : error) :
  In (Throw e) promises -> exists first, Promise_all promises = Throw first.
Proof.
  induction promises as [|[a|e0] promises IH]; simpl; [tauto| |eauto].
  intros [?|Hin]; [discriminate|]. destruct (IH Hin) as (first & ->). eauto.
Qed.

(** X10. An asset whose compression rejects aborts the invocation: when
    the compression of one tracked asset throws, [outputSizes] throws, and
    the world is left as it was: nothing is published, nothing is written. *)
Theorem outputSizes_rejects (lib : library) (env : ambient) (opt : Opt.t)
    (assets : JS.object string) (outputPath : string) (w : world)
    (name : string) (e : error) :
  In name (filterFiles lib opt (JS.keys assets)) ->
  compress_asset lib opt assets name = Throw e ->
  exists first, outputSizes lib env opt assets outputPath w = (Throw first, w).
Proof.
  intros Hin Hthrow.
  destruct (Promise_all_rejects
              (map (compress_asset lib opt assets) (filterFiles lib opt (JS.keys assets))) e)
    as (first & Hall).
  { rewrite <- Hthrow. now apply in_map. }
  exists first. apply outputSizes_abort. unfold records. now rewrite Hall.
Qed.

(** X11. The network cannot fail an invocation or change what it returns
    and writes: run with the network up or down, [outputSizes] gives the
    same result and leaves the same disk. *)
Theorem outputSizes_network (lib : library) (env : ambient) (opt : Opt.t)
    (assets : JS.object string) (outputPath : string) (w : world) (up : bool) :
  let r := outputSizes lib env opt assets outputPath w in
  let r' := outputSizes lib env opt assets outputPath (with_network up w) in
  fst r' = fst r /\ disk (snd r') = disk (snd r).
Proof.
  cbv zeta. unfold outputSizes.
  rewrite (bind_run _ _ _ _ _ (load_run lib opt outputPath w)).
  rewrite (bind_run _ _ _ _ _ (load_run lib opt outputPath (with_network up w))).
  change (disk (with_network up w)) with (disk w).
  destruct (Promise_all _) as [sizes|e]; [|split; reflexivity].
  rewrite (bind_run (lift (Ok sizes)) _ w sizes w eq_refl).
  rewrite (bind_run (lift (Ok sizes)) _ (with_network up w) sizes _ eq_refl).
  cbv beta zeta. destruct (loop lib opt _ _ _) as [items out].
  pose proof (save_run env opt items w) as Hsave.
  pose proof (save_run env opt items (with_network up w)) as Hsave'.
  cbv zeta in Hsave, Hsave'.
  rewrite (bind_run _ _ _ _ _ Hsave), (bind_run _ _ _ _ _ Hsave'). split; reflexivity.
Qed.

(** ** The store client *)

Lemma not_test_iff env : not_test env = true <-> NODE_ENV env <> Some "test".
Proof.
  unfold not_test. destruct (NODE_ENV env) as [v|]; [|split; [discriminate | reflexivity]].
  rewrite negb_true_iff. destruct (String.eqb_spec v "test") as [->|Hne].
  - split; [discriminate | congruence].
  - split; [congruence | reflexivity].
Qed.

(** X12. [publishDiff] always returns and leaves the disk alone.  It posts
    the diff, to the endpoint's [/diff], exactly when the process is not
    under test, runs in CI, and the event is a pull request; a post that
    fails is reported on the console and nothing more. *)
Theorem publishDiff_posts (env : ambient) (diff : Stats.t) (filename : string) (w : world) :
  let gate := NODE_ENV env <> Some "test" /\ string_truthy (ci env) = true
              /\ event env = "pull_request" in
  exists calls,
    publishDiff env diff filename w = (Ok tt, after w (disk w) calls)
    /\ (In (Post (endpoint env ++ "/diff")%string env filename (Diff diff)) calls <-> gate)
    /\ (forall url ctx name b, In (Post url ctx name b) calls ->
          url = (endpoint env ++ "/diff")%string /\ name = filename /\ b = Diff diff)
    /\ (In (ConsoleError "error: while publishing diff") calls
        <-> gate /\ network w = false).
Proof.
  cbv zeta. exists (diff_calls env (network w) diff filename).
  split; [apply publishDiff_run|].
  rewrite <- not_test_iff, <- (String.eqb_eq (event env)). unfold diff_calls.
  destruct (not_test env), (string_truthy (ci env)), (String.eqb (event env) "pull_request"),
    (network w); simpl; repeat split; intros; intuition congruence.
Qed.

(** X13. [publishSizes] always returns and leaves the disk alone.  It
    posts the sizes, to the endpoint's [/size], exactly when the process is
    not under test, runs in CI, the event is a push and the branch is
    master; a post that fails is reported on the console and nothing more. *)
Theorem publishSizes_posts (env : ambient) (size : list Stats.t) (filename : string)
    (w : world) :
  let gate := NODE_ENV env <> Some "test" /\ string_truthy (ci env) = true
              /\ event env = "push" /\ branch env = "master" in
  exists calls,
    publishSizes env size filename w = (Ok tt, after w (disk w) calls)
    /\ (In (Post (endpoint env ++ "/size")%string env filename (Size size)) calls <-> gate)
    /\ (forall url ctx name b, In (Post url ctx name b) calls ->
          url = (endpoint env ++ "/size")%string /\ name = filename /\ b = Size size)
    /\ (In (ConsoleError "error: while publishing sizes") calls
        <-> gate /\ network w = false).
Proof.
  cbv zeta. exists (size_calls env (network w) size filename).
  split; [apply publishSizes_run|].
  rewrite <- not_test_iff, <- (String.eqb_eq (event env)), <- (String.eqb_eq (branch env)).
  unfold size_calls.
  destruct (not_test env), (string_truthy (ci env)), (String.eqb (event env) "push"),
    (String.eqb (branch env) "master"), (network w);
    simpl; repeat split; intros; intuition congruence.
Qed.

(** ** size-plugin-core.js: the history file over time *)

(** X14. A persisting write loses no snapshot and touches no other file:
    in production mode with a non-zero diff and [writeFile] set,
    [writeToDisk] leaves in the history file the new snapshot followed by
    the snapshots that were stored, all of them; a file that was missing,
    unparsable or held no array is replaced by a history of the new
    snapshot alone; every other file is as before. *)
Theorem writeToDisk_history (env : ambient) (opt : Opt.t) (filename : string)
    (stats : Stats.t) (w : world) :
  Opt.mode opt = Some "production" ->
  Exists (fun file => FileStat.diff file <> 0) (Stats.files stats) ->
  Opt.writeFile opt = true ->
  let w' := snd (writeToDisk env opt filename stats w) in
  (exists history,
     disk w' !! filename = Some (Json (JArray (stats :: history)))
     /\ match disk w !! filename with
        | Some (Json (JArray stored)) =>
            Permutation stored history /\ length history = length stored
        | Some (Json JOther) | Some Unparsable | None => history = []
        end)
  /\ (forall other, other <> filename -> disk w' !! other = disk w !! other).
Proof.
  intros Hmode Hdiff Hwrite. cbv zeta. rewrite writeToDisk_run.
  rewrite (proj2 (persists_true opt stats) (conj Hmode Hdiff)), Hwrite. simpl. split.
  - exists (stored_history (disk w) filename). split; [apply lookup_insert_eq|].
    unfold stored_history. destruct (disk w !! filename) as [[|[stored|]]|]; try reflexivity.
    split; [apply sort_perm | apply sort_length].
  - intros other Hother. now apply lookup_insert_ne.
Qed.

(** X15. Without a usable history the baseline is the disk scan: when the
    history file is missing, unparsable, holds no array or holds the empty
    array, [load] is [getSizes] of the output directory. *)
Theorem load_fallback (lib : library) (opt : Opt.t) (outputPath : string) (w : world) :
  (forall latest rest,
     disk w !! Opt.filepath opt <> Some (Json (JArray (latest :: rest)))) ->
  load lib opt outputPath w = getSizes lib opt outputPath w.
Proof.
  intros Hnone. rewrite load_run. unfold baseline, stored_history.
  destruct (disk w !! Opt.filepath opt) as [[|[stored|]]|] eqn:Hfile; try reflexivity.
  destruct stored as [|latest rest]; [reflexivity|]. now destruct (Hnone latest rest).
Qed.

Lemma sort_sorted_same (l : list Stats.t) :
  StronglySorted newer_first l -> sort by_timestamp l = l.
Proof.
  induction 1 as [|x l Hsorted IH Hall]; simpl; [reflexivity|]. rewrite IH.
  destruct l as [|y l]; simpl; [reflexivity|].
  inversion Hall as [|? ? Hxy _]; subst. unfold newer_first in Hxy.
  unfold by_timestamp. destruct (Z.leb_spec (Stats.timestamp y - Stats.timestamp x) 0);
    [reflexivity | lia].
Qed.

(** X16. A history stored newest first is read back as it is stored,
    snapshots of equal timestamp included. *)
Theorem readFromDisk_sorted (filename : string) (w : world) (stored : list Stats.t) :
  disk w !! filename = Some (Json (JArray stored)) ->
  StronglySorted (fun a b => Stats.timestamp a >= Stats.timestamp b) stored ->
  readFromDisk filename w = (Ok stored, w).
Proof.
  intros Hfile Hsorted. rewrite readFromDisk_run. unfold stored_history. rewrite Hfile.
  f_equal. f_equal. apply sort_sorted_same. clear Hfile.
  induction Hsorted as [|s l _ IH Hall]; [constructor|].
  constructor; [assumption|].
  eapply List.Forall_impl; [|exact Hall]. unfold newer_first. intros; lia.
Qed.



(** X18. A build that changes no size is not persisted: when every name
    reads the same size in the baseline and in the current map, every
    record has a zero diff and [writeToDisk] does nothing with the
    snapshot, in production mode too. *)
Theorem unchanged_not_written (lib : library) (env : ambient) (opt : Opt.t)
    (before after : JS.object JS.value) (filename : string) (w : world) :
  (forall k, JS.or_zero (JS.get after k) = JS.or_zero (JS.get before k)) ->
  let stats := snapshot_of w (reconcile lib opt before after) in
  Forall (fun file => FileStat.diff file = 0) (Stats.files stats)
  /\ writeToDisk env opt filename stats w = (Ok tt, w).
Proof.
  intros Hsame. cbv zeta.
  assert (Hzero : Forall (fun file => FileStat.diff file = 0)
                    (Stats.files (snapshot_of w (reconcile lib opt before after)))).
  { simpl. rewrite reconcile_items, map_map. apply List.Forall_forall.
    intros file Hin. apply in_map_iff in Hin as (name & <- & _). simpl.
    destruct (item_of_fields lib (width_of (unique_files before after)) before after name)
      as (_ & Hb & Ha & _).
    rewrite Ha, Hb, Hsame. lia. }
  split; [exact Hzero|]. rewrite writeToDisk_run.
  now rewrite (proj2 (persists_false opt _) (or_intror Hzero)).
Qed.


(** ** Instances of the further properties *)

Lemma toMap_last_index_witness :
  ~ In "b.js" []
  /\ "b.js" <> "__proto__"
  /\ JS.get (toMap ["__proto__"; "b.js"] [JS.Num 1; JS.Num 2]) "b.js" = Some (JS.Num 2)
  /\ ~ In "__proto__" (JS.keys (toMap ["__proto__"; "b.js"] [JS.Num 1; JS.Num 2])).
Proof.
  assert (Hlast : ~ In "b.js" (@nil string)) by (intros []).
  assert (Hname : "b.js" <> "__proto__") by discriminate.
  split; [exact Hlast|]. split; [exact Hname|].
  destruct (toMap_last_index ["__proto__"] [] "b.js" [JS.Num 1; JS.Num 2] Hlast Hname)
    as (Hget & _ & _ & Hnull & _).
  split; [exact Hget|]. intros Hin. destruct (Hnull Hin) as [Heq|[Heq|[]]]; discriminate.
Defined.

Lemma toMap_keys_order_witness :
  let names := ["b.js"; "__proto__"; "a.js"; "b.js"] in
  let values := [JS.Num 1; JS.Num 2; JS.Num 3; JS.Num 4] in
  ~ In JS.Null values
  /\ JS.keys (toMap names values) = ["b.js"; "a.js"].
Proof.
  cbv zeta.
  assert (Hnull : ~ In JS.Null [JS.Num 1; JS.Num 2; JS.Num 3; JS.Num 4])
    by (simpl; intuition discriminate).
  split; [exact Hnull|].
  refine (proj2 (toMap_keys_order ["b.js"; "__proto__"; "a.js"; "b.js"]
                   [JS.Num 1; JS.Num 2; JS.Num 3; JS.Num 4] Hnull) _).
  repeat constructor.
Defined.

Lemma sample_sizes_wf : JS.wf Sample.sizes.
Proof.
  unfold JS.wf, Sample.sizes. simpl. repeat constructor; simpl; intuition discriminate.
Defined.

Lemma sample_sizes_plain (stripHash : string -> string) :
  JS.inherited (stripHash "main.abc.js") = false ->
  JS.inherited (stripHash "main.def.js") = false ->
  JS.inherited (stripHash "vendor.js") = false ->
  forall name, In name (JS.keys Sample.sizes) -> JS.inherited (stripHash name) = false.
Proof.
  intros H1 H2 H3 name [<-|[<-|[<-|[]]]]; assumption.
Defined.

Lemma getStripHashedFileSize_sums_witness :
  JS.wf Sample.sizes
  /\ JS.get (getStripHashedFileSize Demo.stripHash Sample.sizes) "main.js"
     = Some (Total 30).
Proof.
  split; [exact sample_sizes_wf|].
  exact (proj1 (getStripHashedFileSize_sums Demo.stripHash Sample.sizes sample_sizes_wf
                  (sample_sizes_plain Demo.stripHash eq_refl eq_refl eq_refl))
           "main.abc.js" (or_introl eq_refl)).
Defined.

Lemma getStripHashedFileSize_total_witness :
  JS.wf Sample.sizes
  /\ sum_of (getStripHashedFileSize Demo.stripHash Sample.sizes) = Some 35.
Proof.
  split; [exact sample_sizes_wf|].
  exact (getStripHashedFileSize_total Demo.stripHash Sample.sizes sample_sizes_wf
           (sample_sizes_plain Demo.stripHash eq_refl eq_refl eq_refl)).
Defined.

Lemma getStripHashedFileSize_toMap_witness :
  JS.wf Sample.sizes
  /\ JS.get (getStripHashedFileSize noop Sample.sizes) "vendor.js" = Some (Total 5).
Proof.
  split; [exact sample_sizes_wf|].
  refine (proj2 (proj1 (getStripHashedFileSize_toMap noop Sample.sizes sample_sizes_wf
                          (fun a b _ _ Hsame => Hsame)
                          (sample_sizes_plain noop eq_refl eq_refl eq_refl)
                          "vendor.js") 5) _).
  reflexivity.
Defined.


Lemma outputSizes_rejects_witness :
  let w := Demo.world_with [] in
  In "a.js" (filterFiles Sample.lib Sample.brotli_opt (JS.keys Demo.assets))
  /\ compress_asset Sample.lib Sample.brotli_opt Demo.assets "a.js" = Throw CompressionError
  /\ exists first,
       outputSizes Sample.lib Demo.env Sample.brotli_opt Demo.assets "dist" w
       = (Throw first, w).
Proof.
  cbv zeta.
  assert (Hin : In "a.js" (filterFiles Sample.lib Sample.brotli_opt (JS.keys Demo.assets)))
    by (now left).
  assert (Hthrow : compress_asset Sample.lib Sample.brotli_opt Demo.assets "a.js"
                   = Throw CompressionError) by reflexivity.
  split; [exact Hin|]. split; [exact Hthrow|].
  exact (outputSizes_rejects Sample.lib Demo.env Sample.brotli_opt Demo.assets "dist"
           (Demo.world_with []) "a.js" CompressionError Hin Hthrow).
Defined.

Lemma writeToDisk_history_witness :
  let w := Demo.world_with [Demo.stored 1 2] in
  let stats := Demo.stored 10 20 in
  Opt.mode Demo.production = Some "production"
  /\ Opt.writeFile Demo.production = true
  /\ disk (snd (writeToDisk Demo.env Demo.production "/app/size-plugin.json" stats w))
       !! "/app/other.json"
     = disk w !! "/app/other.json".
Proof.
  cbv zeta.
  assert (Hdiff : Exists (fun file => FileStat.diff file <> 0) (Stats.files (Demo.stored 10 20)))
    by (apply List.Exists_cons_hd; discriminate).
  split; [reflexivity|]. split; [reflexivity|].
  refine (proj2 (writeToDisk_history Demo.env Demo.production "/app/size-plugin.json"
                   (Demo.stored 10 20) (Demo.world_with [Demo.stored 1 2])
                   eq_refl Hdiff eq_refl) "/app/other.json" _).
  discriminate.
Defined.

Lemma load_fallback_witness :
  let w := Demo.world_with [] in
  disk w !! Opt.filepath Demo.production = Some (Json (JArray []))
  /\ load Demo.lib Demo.production "dist" w = getSizes Demo.lib Demo.production "dist" w.
Proof.
  cbv zeta.
  assert (Hfile : disk (Demo.world_with []) !! Opt.filepath Demo.production
                  = Some (Json (JArray []))) by (vm_compute; reflexivity).
  split; [exact Hfile|].
  apply (load_fallback Demo.lib Demo.production "dist" (Demo.world_with [])).
  intros latest rest Hsome. rewrite Hfile in Hsome. discriminate.
Defined.

Lemma readFromDisk_sorted_witness :
  let stored := [Demo.stored 10 20; Demo.stored 1 2] in
  readFromDisk "/app/size-plugin.json" (Demo.world_with stored)
  = (Ok stored, Demo.world_with stored).
Proof.
  cbv zeta.
  apply (readFromDisk_sorted "/app/size-plugin.json"
           (Demo.world_with [Demo.stored 10 20; Demo.stored 1 2])).
  - vm_compute. reflexivity.
  - repeat constructor; simpl; lia.
Defined.


Lemma unchanged_not_written_witness :
  let sizes := [("a.js", JS.Num 5)] in
  let w := Demo.world_with [] in
  writeToDisk Demo.env Demo.production "/app/size-plugin.json"
    (snapshot_of w (reconcile Demo.lib Demo.production sizes sizes)) w
  = (Ok tt, w).
Proof.
  cbv zeta.
  exact (proj2 (unchanged_not_written Demo.lib Demo.env Demo.production
                  [("a.js", JS.Num 5)] [("a.js", JS.Num 5)] "/app/size-plugin.json"
                  (Demo.world_with []) (fun k => eq_refl))).
Defined.


Lemma getSizes_aligned_witness :
  let w := Demo.world_with [] in
  filterFiles Sample.lib Sample.opt ["main.abc.js"; "main.def.js"; "vendor.js"]
  = ["main.abc.js"; "main.def.js"; "vendor.js"]
  /\ exists sizes,
       getSizes Sample.lib Sample.opt "dist" w = (Ok sizes, w)
       /\ JS.get sizes "main.js" = Some (JS.Num 20).
Proof.
  cbv zeta.
  assert (Hkept : filterFiles Sample.lib Sample.opt
                    (glob Sample.lib (Opt.pattern Sample.opt) "dist" (Opt.exclude Sample.opt))
                  = glob Sample.lib (Opt.pattern Sample.opt) "dist" (Opt.exclude Sample.opt))
    by reflexivity.
  split; [reflexivity|].
  refine (getSizes_aligned Sample.lib Sample.opt "dist" (Demo.world_with [])
            ["main.abc.js"] "main.def.js" ["vendor.js"] Hkept eq_refl _ _).
  - discriminate.
  - intros later [<-|[]]. discriminate.
Defined.

Lemma gzip_getSizes_pairs_witness :
  let w := Demo.world_with [] in
  exists sizes,
    GzipCore.getSizes Sample.lib Sample.opt "dist" w = (Ok sizes, w)
    /\ JS.get sizes "vendor.js" = Some JS.Null.
Proof.
  cbv zeta.
  refine (gzip_getSizes_pairs Sample.lib Sample.opt "dist" (Demo.world_with [])
            ["main.abc.js"; "main.def.js"] "vendor.js" [] eq_refl _ _).
  - discriminate.
  - intros later [].
Defined.
